(** Verification model of process-explorer (src/process_explorer/main.py).

    The module is a GTK front end over psutil.  What is modelled here is the
    program logic the window runs on every refresh, on every search, on every
    signal request and on every timer tick:
    - [_refresh]: enumeration of the psutil snapshot into the [procs] dict,
      the [children] dict, the root selection and the recursive [add_tree];
    - [add_proc]: the conversion of a psutil info dict into a store row;
    - [_filter_func]: the search predicate of the filter model;
    - [_signal_selected]: the signal loop with its error handling;
    - [_toggle_auto] / [_auto_refresh_cb]: the periodic timer and its gate;
    - [do_activate] / [_load_wlc_settings] / [_on_welcome_close]: the
      welcome-dialog flag and its preference file.

    Strings are ASCII strings ([String.string]); Python's [str.lower] is
    modelled by its ASCII case mapping.  Python dicts are association lists
    with the insertion-order semantics of CPython dicts. *)

From Stdlib Require Import String Ascii ZArith QArith Qround Qabs List Bool Lia Lqa Permutation Sorted.
Import ListNotations.
Open Scope Z_scope.

(* ------------------------------------------------------------------ *)
(** * Strings: [str.lower], [in], [str(int)] *)

Module PyStr.

(** ASCII [str.lower] on one character. *)
Definition lower_char (c : ascii) : ascii :=
  let n := nat_of_ascii c in
  if (Nat.leb 65 n && Nat.leb n 90)%bool then ascii_of_nat (n + 32) else c.

(** [s.lower()] *)
Fixpoint lower (s : string) : string :=
  match s with
  | EmptyString => EmptyString
  | String c s' => String (lower_char c) (lower s')
  end.

(** [s in t] for strings: CPython's substring search, written as a scan of
    every start position of [t]. *)
Fixpoint contains (s t : string) : bool :=
  if prefix s t then true
  else match t with
       | EmptyString => false
       | String _ t' => contains s t'
       end.

(** Decimal digits of a positive number, most significant first;
    the fuel [Pos.size_nat p] (the bit length) bounds the digit count. *)
Fixpoint digits_aux (fuel : nat) (n : Z) (acc : string) : string :=
  match fuel with
  | O => acc
  | S f =>
      let d := ascii_of_nat (48 + Z.to_nat (n mod 10)) in
      let q := n / 10 in
      if q =? 0 then String d acc else digits_aux f q (String d acc)
  end.

(** [str(n)] for a Python int. *)
Definition str_of_Z (n : Z) : string :=
  match n with
  | Z0 => "0"
  | Zpos p => digits_aux (Pos.size_nat p) (Zpos p) EmptyString
  | Zneg p => String "-" (digits_aux (Pos.size_nat p) (Zpos p) EmptyString)
  end.

(** The spec's notion: [s] occurs in [t] as a contiguous piece. *)
Definition substring_of (s t : string) : Prop :=
  exists pre suf, t = (pre ++ s ++ suf)%string.

End PyStr.

(* ------------------------------------------------------------------ *)
(** * Rows of the tree store and the search filter *)

Module Filter.
Import PyStr.

(** A row of [Gtk.TreeStore(int, str, str, float, float, float, str, int)]
    as far as [_filter_func] reads it: column 0 (PID), 1 (Name), 2 (User).
    A [str] cell may hold [None]. *)
Record row := mkRow {
  r_pid : Z;
  r_name : option string;
  r_user : option string
}.

(** [x or ""] for a [str] cell. *)
Definition or_empty (o : option string) : string :=
  match o with Some s => s | None => EmptyString end.

(** [_filter_func(self, model, iter_)] with [self._search_text = search]. *)
Definition filter_func (search : string) (r : row) : bool :=
  if (search =? EmptyString)%string then true
  else
    let name := lower (or_empty (r_name r)) in
    let user := lower (or_empty (r_user r)) in
    let pid := str_of_Z (r_pid r) in
    let s := lower search in
    contains s name || contains s user || contains s pid.

(** The rows a filter model built over [rows] keeps visible. *)
Definition visible (search : string) (rows : list row) : list row :=
  filter (filter_func search) rows.

End Filter.

(* ------------------------------------------------------------------ *)
(** * Python values used by [_refresh] *)

Module Py.

(** The exceptions the modelled code raises or catches.  [ZombieProcess]
    is a subclass of [NoSuchProcess] in psutil and is covered by it. *)
Inductive exn :=
| NoSuchProcess
| AccessDenied
| PermissionError
| AttributeError
| OtherError.

(** A computation that returns normally or raises. *)
Inductive result (A : Type) :=
| Ok (a : A)
| Err (e : exn).
Arguments Ok {A} a.
Arguments Err {A} e.

(** A Python dict as an association list in insertion order. *)
Section Dict.
Context {K V : Type} (keqb : K -> K -> bool).

(** [d.get(k)] *)
Fixpoint dget (k : K) (d : list (K * V)) : option V :=
  match d with
  | [] => None
  | (k', v) :: d' => if keqb k k' then Some v else dget k d'
  end.

(** [k in d] *)
Definition dmem (k : K) (d : list (K * V)) : bool :=
  match dget k d with Some _ => true | None => false end.

(** [d[k] = v]: an existing key keeps its position, a new one goes last. *)
Fixpoint dset (k : K) (v : V) (d : list (K * V)) : list (K * V) :=
  match d with
  | [] => [(k, v)]
  | (k', v') :: d' => if keqb k k' then (k', v) :: d' else (k', v') :: dset k v d'
  end.

End Dict.

Definition opt_Zeqb (a b : option Z) : bool :=
  match a, b with
  | Some x, Some y => Z.eqb x y
  | None, None => true
  | _, _ => false
  end.

(** [sorted(xs)] on ints (insertion sort; [sorted] is stable and total). *)
Fixpoint insert_Z (x : Z) (l : list Z) : list Z :=
  match l with
  | [] => [x]
  | y :: l' => if Z.leb x y then x :: l else y :: insert_Z x l'
  end.

Fixpoint sorted_Z (l : list Z) : list Z :=
  match l with
  | [] => []
  | x :: l' => insert_Z x (sorted_Z l')
  end.

(** Python's [round(x, 1)] on a float, on the exact value the float
    denotes: nearest multiple of 1/10, ties to the even multiple. *)
Definition round_half_even (x : Q) : Z :=
  let f := Qfloor x in
  match Qcompare (x - inject_Z f)%Q (1 # 2)%Q with
  | Lt => f
  | Gt => (f + 1)%Z
  | Eq => if Z.even f then f else (f + 1)%Z
  end.

Definition round1 (x : Q) : Q := (inject_Z (round_half_even (x * 10)) / 10)%Q.

End Py.

(* ------------------------------------------------------------------ *)
(** * [_refresh]: enumeration, rows and the process tree *)

Module Refresh.
Import Py.

(** [psutil.Process.memory_info()] as far as the code reads it. *)
Record meminfo := mkMem { rss : Z }.

(** [p.info] for the attributes [['pid', 'ppid', 'name', 'username',
    'cpu_percent', 'memory_percent', 'memory_info', 'status']]; every key
    is present, a value may be [None]. *)
Record info := mkInfo {
  i_pid : Z;
  i_ppid : option Z;
  i_name : option string;
  i_username : option string;
  i_cpu_percent : option Q;
  i_memory_percent : option Q;
  i_memory_info : option meminfo;
  i_status : option string
}.

(** A row of the store: PID, Name, User, CPU%, MEM%, RSS(MB), Status, PPID. *)
Record srow := mkRow {
  s_pid : Z;
  s_name : option string;
  s_user : string;
  s_cpu : Q;
  s_mem : Q;
  s_rss : Q;
  s_status : option string;
  s_ppid : option Z
}.

(** [x or 0] for a float value. *)
Definition or_zero (o : option Q) : Q :=
  match o with
  | Some q => if Qeq_bool q 0 then 0%Q else q
  | None => 0%Q
  end.

(** [info.get('memory_info') and info['memory_info'].rss or 0] *)
Definition rss_bytes (i : info) : Z :=
  match i_memory_info i with
  | Some m => if Z.eqb (rss m) 0 then 0 else rss m
  | None => 0
  end.

(** The list handed to [self.store.append] in [add_proc]. *)
Definition row_of (i : info) : srow :=
  let rssmb := (inject_Z (rss_bytes i) / 1024 / 1024)%Q in
  mkRow (i_pid i)
        (i_name i)
        (match i_username i with
         | Some u => if (u =? EmptyString)%string then "?"%string else u
         | None => "?"%string
         end)
        (or_zero (i_cpu_percent i))
        (or_zero (i_memory_percent i))
        (round1 rssmb)
        (i_status i)
        (i_ppid i).

(** One item of [psutil.process_iter(...)]: reading [p.info] succeeds or
    raises. *)
Definition poll := list (result info).

Definition procs_t := list (Z * info).

(** The exceptions listed in the [except] clause of the enumeration. *)
Definition caught_enum (e : exn) : bool :=
  match e with NoSuchProcess | AccessDenied => true | _ => false end.

(** [for p in psutil.process_iter(...): try: procs[info['pid']] = info
    except (psutil.NoSuchProcess, psutil.AccessDenied): pass] *)
Fixpoint enum_loop (items : poll) (procs : procs_t) : result procs_t :=
  match items with
  | [] => Ok procs
  | Ok i :: rest => enum_loop rest (dset Z.eqb (i_pid i) i procs)
  | Err e :: rest => if caught_enum e then enum_loop rest procs else Err e
  end.

Definition enumerate (items : poll) : result procs_t := enum_loop items [].

(** [info.get('ppid', 0) in procs] *)
Definition ppid_in (procs : procs_t) (i : info) : bool :=
  match i_ppid i with
  | Some q => dmem Z.eqb q procs
  | None => false
  end.

(** [children.setdefault(ppid, []).append(pid)] over [procs.items()]. *)
Definition children_of (procs : procs_t) : list (option Z * list Z) :=
  fold_left (fun ch '(pid, i) =>
               let old := match dget opt_Zeqb (i_ppid i) ch with
                          | Some l => l | None => [] end in
               dset opt_Zeqb (i_ppid i) (old ++ [pid]) ch)
            procs [].

(** The nodes [self.store.append(parent_iter, ...)] creates: a row and the
    rows appended under it. *)
#[local] Set Warnings "-register-all".
Inductive ptree := PNode (r : srow) (kids : list ptree).

Section Tree.
Variable procs : procs_t.
Let children := children_of procs.

(** [add_tree(pid, parent_iter)]; the rows it appends under [parent_iter]
    (when [add_proc] finds no info, the children go under the same parent).
    The fuel bounds the recursion depth. *)
Fixpoint add_tree (fuel : nat) (pid : Z) : list ptree :=
  match fuel with
  | O => []
  | S f =>
      let kids := flat_map (add_tree f)
                    (match dget opt_Zeqb (Some pid) children with
                     | Some l => l | None => [] end) in
      match dget Z.eqb pid procs with
      | Some i => [PNode (row_of i) kids]
      | None => kids
      end
  end.

(** [roots = [pid for pid, info in procs.items() if info.get('ppid', 0) not in procs]] *)
Definition roots : list Z :=
  map fst (filter (fun '(_, i) => negb (ppid_in procs i)) procs).

(** [for pid in sorted(roots): add_tree(pid)] with a given recursion fuel. *)
Definition forest_fuel (fuel : nat) : list ptree :=
  flat_map (add_tree fuel) (sorted_Z roots).

End Tree.

(** The store after the rebuild: the depth of any chain of [add_tree]
    calls is at most the number of processes. *)
Definition build_forest (procs : procs_t) : list ptree :=
  forest_fuel procs (S (length procs)) .

(** What [_refresh] leaves behind: the rebuilt store and the process count
    shown in the stats label ([len(procs)]). *)
Record snapshot := mkSnap { sn_forest : list ptree; sn_count : nat }.

Definition refresh (items : poll) : result snapshot :=
  match enumerate items with
  | Ok procs => Ok (mkSnap (build_forest procs) (length procs))
  | Err e => Err e
  end.

(** The pids and rows of the nodes of a forest. *)
Fixpoint tree_rows (t : ptree) : list srow :=
  match t with
  | PNode r ks => r :: (fix go (l : list ptree) : list srow :=
                          match l with
                          | [] => []
                          | t' :: l' => tree_rows t' ++ go l'
                          end) ks
  end.

Definition forest_rows (f : list ptree) : list srow := flat_map tree_rows f.

Definition forest_pids (f : list ptree) : list Z := map s_pid (forest_rows f).

End Refresh.

(* ------------------------------------------------------------------ *)
(** * [_signal_selected] *)

Module Signal.
Import Py.

Definition SIGKILL : Z := 9.
Definition SIGTERM : Z := 15.

(** The exceptions listed in the [except] clause of [_signal_selected]. *)
Definition caught_sig (e : exn) : bool :=
  match e with NoSuchProcess | AccessDenied | PermissionError => true | _ => false end.

Section Loop.
(** The process table of the operating system, and
    [psutil.Process(pid).send_signal(sig)] acting on it. *)
Variable os : Type.
Variable send : os -> Z -> Z -> result os.

(** [for path in paths: ... try: psutil.Process(pid).send_signal(sig)
    except (psutil.NoSuchProcess, psutil.AccessDenied, PermissionError): pass] *)
Fixpoint signal_loop (o : os) (pids : list Z) (sig : Z) : result os :=
  match pids with
  | [] => Ok o
  | p :: rest =>
      match send o p sig with
      | Ok o' => signal_loop o' rest sig
      | Err e => if caught_sig e then signal_loop o rest sig else Err e
      end
  end.

(** [_signal_selected(sig)] over the pids of the selected rows; the boolean
    is the one-shot [GLib.timeout_add(500, self._refresh)] it schedules. *)
Definition signal_selected (o : os) (selected : list Z) (sig : Z)
  : result (os * bool) :=
  match signal_loop o selected sig with
  | Ok o' => Ok (o', true)
  | Err e => Err e
  end.

End Loop.
End Signal.

(* ------------------------------------------------------------------ *)
(** * The refresh timers: [_toggle_auto], [_auto_refresh_cb] *)

Module Timer.

(** The part of the window state the timers touch.  [timer_alive] is the
    GLib source [self._timer_id]; [oneshots] counts the pending
    [GLib.timeout_add(500, self._refresh)] sources; [rebuilds] counts the
    runs of [_refresh]. *)
Record state := mkState {
  auto_refresh : bool;
  timer_alive : bool;
  oneshots : nat;
  rebuilds : nat
}.

Inductive event :=
| Toggle (active : bool)   (* "toggled" of the Auto-refresh button *)
| Tick                     (* the 3-second source fires *)
| Manual                   (* the refresh button *)
| SignalSent               (* the end of [_signal_selected] *)
| OneShot.                 (* a 500 ms source fires *)

Definition do_refresh (s : state) : state :=
  mkState (auto_refresh s) (timer_alive s) (oneshots s) (S (rebuilds s)).

(** [_auto_refresh_cb]: the new state and its return value. *)
Definition auto_refresh_cb (s : state) : state * bool :=
  if auto_refresh s then (do_refresh s, true) else (s, true).

(** One event; the boolean says whether it ran [_refresh].  A GLib source
    stays registered while its callback returns a true value; [_refresh]
    returns [None]. *)
Definition step (s : state) (e : event) : state * bool :=
  match e with
  | Toggle b => (mkState b (timer_alive s) (oneshots s) (rebuilds s), false)
  | Tick =>
      if timer_alive s then
        let '(s', keep) := auto_refresh_cb s in
        (mkState (auto_refresh s') keep (oneshots s') (rebuilds s'),
         negb (Nat.eqb (rebuilds s') (rebuilds s)))
      else (s, false)
  | Manual => (do_refresh s, true)
  | SignalSent => (mkState (auto_refresh s) (timer_alive s) (S (oneshots s)) (rebuilds s), false)
  | OneShot =>
      match oneshots s with
      | O => (s, false)
      | S n => let s' := do_refresh s in
               (mkState (auto_refresh s') (timer_alive s') n (rebuilds s'), true)
      end
  end.

(** A run: the final state and, per event, whether it rebuilt the tree. *)
Fixpoint run (s : state) (tr : list event) : state * list (event * bool) :=
  match tr with
  | [] => (s, [])
  | e :: tr' =>
      let '(s1, b) := step s e in
      let '(s2, outs) := run s1 tr' in
      (s2, (e, b) :: outs)
  end.

(** The end of [__init__]: one [_refresh], then the 3-second source. *)
Definition init : state := mkState true true 0 1.

End Timer.

(* ------------------------------------------------------------------ *)
(** * The welcome flag: [do_activate], [_load_wlc_settings],
      [_save_wlc_settings], [_on_welcome_close] *)

Module Welcome.
Import Py.

(** The JSON object of [welcome.json] (boolean values only). *)
Definition settings := list (string * bool).

(** [_load_wlc_settings()]; [None] is an absent file. *)
Definition load (file : option settings) : settings :=
  match file with
  | Some s => s
  | None => [("welcome_shown"%string, false)]
  end.

(** [s.get("welcome_shown")] as a truth value. *)
Definition welcome_shown (s : settings) : bool :=
  match dget String.eqb "welcome_shown"%string s with
  | Some b => b
  | None => false
  end.

(** The attributes of [ProcessExplorerApp]: its class body (source lines
    259-277) defines [__init__], [do_activate] and [do_startup];
    [_show_welcome] and [_on_welcome_close] (lines 288-315) are indented
    under [if __name__ == "__main__":], after [main()], so they are locals
    of that block and not methods of the class. *)
Definition app_methods : list string :=
  ["__init__"; "do_activate"; "do_startup"]%string.

Definition has_method (m : string) : bool :=
  existsb (String.eqb m) app_methods.

Record state := mkState {
  file : option settings;        (* welcome.json *)
  wlc_settings : settings;       (* self._wlc_settings *)
  dialog_open : bool
}.

(** [do_activate()]: the state after it and the exception it raised, if
    any (PyGObject reports an exception of a vfunc and the main loop goes
    on with the state reached so far). *)
Definition activate (st : state) : state * option exn :=
  let s := load (file st) in
  let st1 := mkState (file st) s (dialog_open st) in
  if welcome_shown s then (st1, None)
  else if has_method "_show_welcome"%string
       then (mkState (file st) s true, None)
       else (st1, Some AttributeError).

(** [_on_welcome_close]: the body the "Get Started" button would run. *)
Definition on_welcome_close (st : state) : state :=
  let s := dset String.eqb "welcome_shown"%string true (wlc_settings st) in
  mkState (Some s) s false.

Inductive event :=
| Activate
| Dismiss      (* "Get Started" in the welcome dialog *)
| Restart.     (* the application exits and is started again *)

Definition step (st : state) (e : event) : state :=
  match e with
  | Activate => fst (activate st)
  | Dismiss => if dialog_open st then on_welcome_close st else st
  | Restart => mkState (file st) [] false
  end.

Definition run (st : state) (tr : list event) : state := fold_left step tr st.

(** A first start: no [welcome.json] yet. *)
Definition fresh : state := mkState None [] false.

End Welcome.

(* ------------------------------------------------------------------ *)
(** * The theme button: [_toggle_theme] *)

Module Theme.

(** [Adw.ColorScheme]. *)
Inductive color_scheme :=
| DEFAULT | FORCE_LIGHT | PREFER_LIGHT | PREFER_DARK | FORCE_DARK.

Section Toggle.
(** [mgr.get_dark()] under a colour scheme, for the desktop's current
    preference. *)
Variable get_dark : color_scheme -> bool.

(** [_toggle_theme]: the colour scheme it sets. *)
Definition toggle_theme (sch : color_scheme) : color_scheme :=
  if get_dark sch then FORCE_LIGHT else FORCE_DARK.

End Toggle.

(** The desktop's colour preference, as libadwaita reads it. *)
Inductive system_pref := NoPreference | PreferDarkSys | PreferLightSys.

(** libadwaita's [get_dark]: the forced schemes fix the answer, the others
    follow the desktop, with light as the fallback of [DEFAULT] and
    [PREFER_LIGHT] and dark that of [PREFER_DARK]. *)
Definition adw_get_dark (sys : system_pref) (sch : color_scheme) : bool :=
  match sch, sys with
  | FORCE_DARK, _ => true
  | FORCE_LIGHT, _ => false
  | PREFER_DARK, PreferLightSys => false
  | PREFER_DARK, _ => true
  | _, PreferDarkSys => true
  | _, _ => false
  end.

End Theme.

(* ================================================================== *)
(** * Properties *)

Module StrFacts.
Import PyStr.

Lemma prefix_app (s t : string) :
  prefix s t = true <-> exists suf, t = (s ++ suf)%string.
Proof.
  revert t; induction s as [|a s IH]; intros t; simpl.
  - split; [intros _; exists t; reflexivity | destruct t; reflexivity].
  - destruct t as [|b t].
    + split; [discriminate | intros [suf H]; discriminate].
    + change (prefix (String a s) (String b t))
        with (if ascii_dec a b then prefix s t else false).
      destruct (ascii_dec a b) as [<-|Hab].
      * rewrite IH; split; intros [suf H]; exists suf;
          [rewrite H | injection H]; auto.
      * split; [discriminate | intros [suf H]; injection H; intros; congruence].
Qed.

Lemma contains_unfold (s t : string) :
  contains s t = (prefix s t || match t with
                                | EmptyString => false
                                | String _ t' => contains s t'
                                end)%bool.
Proof. destruct t as [|a t]; simpl; [destruct (prefix s "")|destruct (prefix s (String a t))]; reflexivity. Qed.

Lemma contains_substring (s t : string) :
  contains s t = true <-> substring_of s t.
Proof.
  unfold substring_of.
  induction t as [|c t IH]; rewrite contains_unfold, orb_true_iff, prefix_app.
  - split.
    + intros [[suf H]|H]; [exists EmptyString, suf; exact H | discriminate].
    + intros [pre [suf H]]. destruct pre; [|discriminate]. left; exists suf; exact H.
  - rewrite IH. split.
    + intros [[suf H]|[pre [suf H]]].
      * exists EmptyString, suf; exact H.
      * exists (String c pre), suf; simpl; rewrite H; reflexivity.
    + intros [pre [suf H]]. destruct pre as [|c' pre].
      * left; exists suf; exact H.
      * right. simpl in H. injection H as _ H. exists pre, suf; exact H.
Qed.

End StrFacts.

Module FilterFacts.
Import PyStr Filter.

(** What the spec calls a match of [search] on a row. *)
Definition matches (search : string) (r : row) : Prop :=
  substring_of (lower search) (lower (or_empty (r_name r))) \/
  substring_of (lower search) (lower (or_empty (r_user r))) \/
  substring_of (lower search) (str_of_Z (r_pid r)).

(** C2: for a non-empty search text, [_filter_func] accepts a row exactly
    when the lower-cased search text is a substring of the lower-cased
    name, of the lower-cased user, or of the decimal pid; so the rows a
    search keeps visible all match it. *)
Theorem filter_func_substring (search : string) :
  search <> EmptyString ->
  (forall r, filter_func search r = true <-> matches search r) /\
  (forall rows r, In r (visible search rows) -> In r rows /\ matches search r).
Proof.
  intros Hne.
  assert (Hr : forall r, filter_func search r = true <-> matches search r).
  { intros r. unfold filter_func, matches.
    destruct (String.eqb_spec search EmptyString) as [E|_]; [contradiction|].
    rewrite !orb_true_iff, !StrFacts.contains_substring. tauto. }
  split; [exact Hr|].
  intros rows r Hin. unfold visible in Hin. apply filter_In in Hin as [Hin Hf].
  split; [exact Hin | apply Hr; exact Hf].
Qed.

Lemma filter_func_substring_witness :
  ("fox"%string <> EmptyString) /\
  filter_func "FoX" (mkRow 4242 (Some "Firefox"%string) (Some "alice"%string)) = true /\
  ((forall r, filter_func "fox" r = true <-> matches "fox" r) /\
   (forall rows r, In r (visible "fox" rows) -> In r rows /\ matches "fox" r)).
Proof.
  split; [discriminate|]. split; [reflexivity|].
  apply (filter_func_substring "fox"). discriminate.
Defined.

(** C9: with an empty search text the filter accepts every row. *)
Theorem filter_func_empty (r : row) : filter_func EmptyString r = true.
Proof. reflexivity. Qed.

End FilterFacts.

Module RefreshFacts.
Import Py Refresh.

(** A macOS snapshot: psutil lists [kernel_task] as pid 0 with ppid 0, and
    [launchd] (pid 1) has ppid 0. *)
Definition proc (pid : Z) (ppid : option Z) (name : string) : info :=
  mkInfo pid ppid (Some name) (Some "root"%string) (Some 0%Q) (Some 0%Q)
         (Some (mkMem 1048576)) (Some "running"%string).

Definition kernel_task : info := proc 0 (Some 0) "kernel_task".
Definition launchd : info := proc 1 (Some 0) "launchd".
Definition macos_poll : poll := [Ok kernel_task; Ok launchd].

(** C1: the record of [launchd] has its ppid 0 present in the snapshot,
    yet no node is created for it at all (nor for pid 0, nor for anything
    else): the rebuilt tree is empty, whatever the recursion depth. *)
Theorem refresh_macos_empty_tree :
  exists procs,
    enumerate macos_poll = Ok procs /\
    ppid_in procs launchd = true /\
    dget Z.eqb 0 procs = Some kernel_task /\
    roots procs = [] /\
    (forall fuel, forest_fuel procs fuel = []) /\
    refresh macos_poll = Ok (mkSnap [] 2).
Proof.
  eexists. split; [reflexivity|].
  split; [reflexivity|]. split; [reflexivity|]. split; [reflexivity|].
  split; [intros fuel; reflexivity | reflexivity].
Qed.

(** A Linux-like snapshot with a self-parented record. *)
Definition init1 : info := proc 1 (Some 0) "init".
Definition selfloop : info := proc 5 (Some 5) "looped".
Definition loop_poll : poll := [Ok init1; Ok selfloop].

(** C3: pid 5 is in the snapshot, yet it is a node of no rebuilt tree,
    for any recursion depth of [add_tree]. *)
Theorem refresh_drops_cycle :
  exists procs,
    enumerate loop_poll = Ok procs /\
    dget Z.eqb 5 procs = Some selfloop /\
    (forall fuel, forest_pids (forest_fuel procs (S fuel)) = [1]) /\
    ~ In 5 (forest_pids (build_forest procs)).
Proof.
  eexists. split; [reflexivity|]. split; [reflexivity|].
  split.
  - intros fuel. reflexivity.
  - vm_compute. intros [H|H]; [discriminate | exact H].
Qed.

(** The records a poll delivers, in order. *)
Definition oks (items : poll) : list info :=
  flat_map (fun it => match it with Ok i => [i] | Err _ => [] end) items.

(** Every failure of the poll is one the enumeration catches. *)
Definition errs_caught (items : poll) : Prop :=
  forall e, In (Err e) items -> caught_enum e = true.

Lemma dset_keys_new (k : Z) (v : info) (d : procs_t) :
  ~ In k (map fst d) -> map fst (dset Z.eqb k v d) = map fst d ++ [k].
Proof.
  induction d as [|[k' v'] d IH]; simpl; intros Hn; [reflexivity|].
  destruct (Z.eqb_spec k k') as [E|_]; [subst; exfalso; apply Hn; left; reflexivity|].
  simpl; f_equal; apply IH; intros H; apply Hn; right; exact H.
Qed.

Lemma enum_loop_keys (items : poll) (d : procs_t) :
  errs_caught items ->
  NoDup (map i_pid (oks items)) ->
  (forall i, In i (oks items) -> ~ In (i_pid i) (map fst d)) ->
  exists d', enum_loop items d = Ok d' /\
             map fst d' = map fst d ++ map i_pid (oks items).
Proof.
  revert d; induction items as [|[i|e] items IH]; intros d Hc Hnd Hdis; simpl.
  - exists d; split; [reflexivity | rewrite app_nil_r; reflexivity].
  - simpl in Hnd; inversion Hnd as [|? ? Hni Hnd']; subst.
    destruct (IH (dset Z.eqb (i_pid i) i d)) as [d' [E K]].
    + intros e He; apply Hc; right; exact He.
    + exact Hnd'.
    + intros j Hj. rewrite dset_keys_new by (apply Hdis; left; reflexivity).
      rewrite in_app_iff; intros [H|[H|[]]].
      * apply (Hdis j); [right; exact Hj | exact H].
      * apply Hni; rewrite H; apply in_map; exact Hj.
    + exists d'; split; [exact E|].
      rewrite K, dset_keys_new by (apply Hdis; left; reflexivity).
      rewrite <- app_assoc; reflexivity.
  - rewrite (Hc e (or_introl eq_refl)).
    apply IH; auto. intros e' He'; apply Hc; right; exact He'.
Qed.

Lemma enum_loop_skip (items : poll) (d : procs_t) :
  errs_caught items ->
  enum_loop items d = enum_loop (map Ok (oks items)) d.
Proof.
  revert d; induction items as [|[i|e] items IH]; intros d Hc; simpl.
  - reflexivity.
  - apply IH; intros e He; apply Hc; right; exact He.
  - rewrite (Hc e (or_introl eq_refl)).
    apply IH; intros e' He'; apply Hc; right; exact He'.
Qed.

Lemma enum_loop_oks_ok (l : list info) (d : procs_t) :
  exists d', enum_loop (map Ok l) d = Ok d'.
Proof.
  revert d; induction l as [|i l IH]; intros d; simpl; [eexists; reflexivity | apply IH].
Qed.

(** C4: when every failure of the poll is a per-process lookup or access
    failure (psutil's [NoSuchProcess] or [AccessDenied]) and the delivered
    pids are distinct (psutil walks each pid of [pids()] once), the refresh
    completes and the process count of the stats label is the number of
    records the poll delivered. *)
Theorem refresh_count (items : poll) :
  errs_caught items ->
  NoDup (map i_pid (oks items)) ->
  exists snap, refresh items = Ok snap /\ sn_count snap = length (oks items).
Proof.
  intros Hc Hnd.
  destruct (enum_loop_keys items [] Hc Hnd) as [d [E K]].
  { intros i _ []. }
  unfold refresh, enumerate. rewrite E.
  eexists; split; [reflexivity|]. simpl.
  rewrite <- (length_map fst d), K. simpl. rewrite length_map; reflexivity.
Qed.

Definition count_poll : poll :=
  [Ok init1; Err NoSuchProcess; Ok (proc 7 (Some 1) "sshd");
   Err AccessDenied; Ok (proc 9 (Some 7) "bash")].

Lemma refresh_count_witness :
  errs_caught count_poll /\ NoDup (map i_pid (oks count_poll)) /\
  exists snap, refresh count_poll = Ok snap /\ sn_count snap = 3%nat.
Proof.
  assert (Hc : errs_caught count_poll).
  { intros e He. simpl in He.
    repeat destruct He as [He|He]; try discriminate;
      try (injection He as <-; reflexivity); contradiction. }
  assert (Hn : NoDup (map i_pid (oks count_poll))).
  { simpl. repeat constructor; simpl; lia. }
  split; [exact Hc|]. split; [exact Hn|].
  exact (refresh_count count_poll Hc Hn).
Defined.

End RefreshFacts.

Module ErrorFacts.
Import Py Refresh RefreshFacts Signal.

(** The operating-system state after sending [sig] to [pids] one by one,
    a failed send leaving it as it was. *)
Definition apply_sends {os : Type} (send : os -> Z -> Z -> result os)
    (o : os) (pids : list Z) (sig : Z) : os :=
  fold_left (fun o p => match send o p sig with Ok o' => o' | Err _ => o end) pids o.

Lemma signal_loop_total {os : Type} (send : os -> Z -> Z -> result os)
    (sig : Z) (o : os) (pids : list Z) :
  (forall o p e, send o p sig = Err e -> caught_sig e = true) ->
  signal_loop os send o pids sig = Ok (apply_sends send o pids sig).
Proof.
  intros Hs. revert o; induction pids as [|p pids IH]; intros o; simpl.
  - reflexivity.
  - destruct (send o p sig) as [o'|e] eqn:E.
    + apply IH.
    + rewrite (Hs o p e E). apply IH.
Qed.

(** C5: per-process failures are skipped.  In the enumeration, a poll
    whose failures are all [NoSuchProcess] or [AccessDenied] completes
    normally and gives the dict its successful records alone give; in
    [_signal_selected], when every failed send raises [NoSuchProcess],
    [AccessDenied] or [PermissionError], the call returns normally, the
    sends after a failure still happen, a failure changes nothing, and the
    one-shot refresh is scheduled. *)
Theorem per_process_failures_skipped :
  (forall items : poll,
     errs_caught items ->
     (exists procs, enumerate items = Ok procs) /\
     enumerate items = enumerate (map Ok (oks items))) /\
  (forall (os : Type) (send : os -> Z -> Z -> result os) (o : os)
          (selected : list Z) (sig : Z),
     (forall o p e, send o p sig = Err e -> caught_sig e = true) ->
     signal_selected os send o selected sig
       = Ok (apply_sends send o selected sig, true)).
Proof.
  split.
  - intros items Hc. unfold enumerate. rewrite (enum_loop_skip items [] Hc).
    split; [apply enum_loop_oks_ok | reflexivity].
  - intros os send o selected sig Hs. unfold signal_selected.
    rewrite (signal_loop_total send sig o selected Hs). reflexivity.
Qed.

(** A toy process table: the set of live pids and the signals received. *)
Definition toy_os := (list Z * list (Z * Z))%type.

Definition toy_send (o : toy_os) (pid : Z) (sig : Z) : result toy_os :=
  if existsb (Z.eqb pid) (fst o) then
    if Z.eqb pid 1 then Err PermissionError else Ok (fst o, (pid, sig) :: snd o)
  else Err NoSuchProcess.

Lemma per_process_failures_skipped_witness :
  errs_caught count_poll /\
  enumerate count_poll = enumerate (map Ok (oks count_poll)) /\
  signal_selected toy_os toy_send ([1; 7; 9], []) [42; 1; 7; 9] SIGKILL
    = Ok (([1; 7; 9], [(9, 9); (7, 9)]), true).
Proof.
  destruct per_process_failures_skipped as [Henum Hsig].
  assert (Hc : errs_caught count_poll).
  { intros e He. simpl in He.
    repeat destruct He as [He|He]; try discriminate;
      try (injection He as <-; reflexivity); contradiction. }
  split; [exact Hc|]. split; [exact (proj2 (Henum count_poll Hc))|].
  rewrite (Hsig toy_os toy_send ([1; 7; 9], []) [42; 1; 7; 9] SIGKILL).
  - reflexivity.
  - intros o p e. unfold toy_send.
    destruct (existsb (Z.eqb p) (fst o)); [destruct (Z.eqb p 1)|];
      intros H; (discriminate || (injection H as <-; reflexivity)).
Defined.

End ErrorFacts.

Module RowFacts.
Import Py Refresh.

Lemma round_half_even_comp (x y : Q) :
  (x == y)%Q -> round_half_even x = round_half_even y.
Proof.
  intros H. unfold round_half_even; cbv zeta.
  rewrite (Qfloor_comp x y H).
  replace ((x - inject_Z (Qfloor y)) ?= 1 # 2)%Q
    with ((y - inject_Z (Qfloor y)) ?= 1 # 2)%Q; [reflexivity|].
  apply Qcompare_comp; [|reflexivity].
  apply Qminus_comp; [symmetry; exact H | reflexivity].
Qed.

Lemma round_half_even_near (x : Q) :
  (x - (1 # 2) <= inject_Z (round_half_even x) <= x + (1 # 2))%Q.
Proof.
  unfold round_half_even; cbv zeta.
  pose proof (Qfloor_le x) as Hle. pose proof (Qlt_floor x) as Hlt.
  rewrite inject_Z_plus in Hlt. change (inject_Z 1) with 1%Q in Hlt.
  destruct (Qcompare_spec (x - inject_Z (Qfloor x)) (1 # 2)) as [H|H|H].
  - destruct (Z.even (Qfloor x)); [|rewrite inject_Z_plus; change (inject_Z 1) with 1%Q]; lra.
  - lra.
  - rewrite inject_Z_plus; change (inject_Z 1) with 1%Q; lra.
Qed.

Lemma round1_near (x : Q) : (Qabs (round1 x - x) <= 1 # 20)%Q.
Proof.
  apply Qabs_Qle_condition. unfold round1.
  pose proof (round_half_even_near (x * 10)) as H.
  set (z := inject_Z (round_half_even (x * 10))) in *.
  unfold Qdiv. change (/ 10)%Q with (1 # 10)%Q. lra.
Qed.

Lemma tree_rows_node (r : srow) (ks : list ptree) :
  tree_rows (PNode r ks) = r :: forest_rows ks.
Proof.
  reflexivity.
Qed.

Lemma forest_rows_flat_map {A : Type} (f : A -> list ptree) (l : list A) (r : srow) :
  In r (forest_rows (flat_map f l)) <-> exists a, In a l /\ In r (forest_rows (f a)).
Proof.
  unfold forest_rows. rewrite in_flat_map. split.
  - intros [t [Ht Hr]]. apply in_flat_map in Ht as [a [Ha Ht]].
    exists a; split; [exact Ha|]. apply in_flat_map; exists t; auto.
  - intros [a [Ha Hr]]. apply in_flat_map in Hr as [t [Ht Hr]].
    exists t; split; [apply in_flat_map; exists a; auto | exact Hr].
Qed.

Lemma forest_rows_node (r r' : srow) (ks : list ptree) :
  In r (forest_rows [PNode r' ks]) -> r' = r \/ In r (forest_rows ks).
Proof.
  unfold forest_rows at 1.
  change (flat_map tree_rows [PNode r' ks]) with (tree_rows (PNode r' ks) ++ []).
  rewrite app_nil_r, tree_rows_node. intros [H|H]; auto.
Qed.

(** Every node [add_tree] creates is the row of a record of [procs]. *)
Lemma add_tree_rows (procs : procs_t) (fuel : nat) (pid : Z) (r : srow) :
  In r (forest_rows (add_tree procs fuel pid)) ->
  exists p i, dget Z.eqb p procs = Some i /\ r = row_of i.
Proof.
  revert pid; induction fuel as [|f IH]; intros pid; simpl; [intros []|].
  destruct (dget Z.eqb pid procs) as [i|] eqn:E.
  - intros H; apply forest_rows_node in H as [<-|H]; [exists pid, i; auto|].
    apply forest_rows_flat_map in H as [c [_ Hc]]. exact (IH c Hc).
  - intros H. apply forest_rows_flat_map in H as [c [_ Hc]]. exact (IH c Hc).
Qed.

(** C10: every row of the rebuilt tree is the row of a snapshot record;
    its RSS MB cell is the record's RSS in bytes over 2^20 rounded to one
    decimal (within 1/20 of the exact quotient), 0 when [memory_info] is
    missing, and a missing [cpu_percent] or [memory_percent] is shown as 0. *)
Theorem forest_row_values (procs : procs_t) (r : srow) :
  In r (forest_rows (build_forest procs)) ->
  exists pid i,
    dget Z.eqb pid procs = Some i /\ r = row_of i /\
    (forall m, i_memory_info i = Some m ->
       (s_rss r == round1 (inject_Z (rss m) / inject_Z (2 ^ 20)))%Q /\
       (Qabs (s_rss r - inject_Z (rss m) / inject_Z (2 ^ 20)) <= 1 # 20)%Q) /\
    (i_memory_info i = None -> (s_rss r == 0)%Q) /\
    (i_cpu_percent i = None -> (s_cpu r == 0)%Q) /\
    (i_memory_percent i = None -> (s_mem r == 0)%Q).
Proof.
  unfold build_forest, forest_fuel. intros H.
  apply forest_rows_flat_map in H as [root [_ H]].
  destruct (add_tree_rows procs _ root r H) as [pid [i [Hg ->]]].
  exists pid, i. split; [exact Hg|]. split; [reflexivity|].
  assert (Hr : forall m, i_memory_info i = Some m ->
            (s_rss (row_of i) == round1 (inject_Z (rss m) / inject_Z (2 ^ 20)))%Q).
  { intros m Hm. simpl. unfold rss_bytes. rewrite Hm.
    replace (if (rss m =? 0)%Z then 0%Z else rss m) with (rss m)
      by (destruct (Z.eqb_spec (rss m) 0); auto).
    unfold round1. rewrite (round_half_even_comp
      (inject_Z (rss m) / 1024 / 1024 * 10) (inject_Z (rss m) / inject_Z (2 ^ 20) * 10)).
    - reflexivity.
    - unfold Qdiv. rewrite <- !Qmult_assoc. apply Qmult_comp; reflexivity. }
  split; [|split; [|split]].
  - intros m Hm. split; [exact (Hr m Hm)|].
    rewrite (Hr m Hm). apply round1_near.
  - intros Hm. unfold row_of, rss_bytes. rewrite Hm. reflexivity.
  - intros Hc. unfold row_of, or_zero. rewrite Hc. reflexivity.
  - intros Hc. unfold row_of, or_zero. rewrite Hc. reflexivity.
Qed.

Definition qs_poll_procs : procs_t :=
  [(1, RefreshFacts.init1);
   (7, mkInfo 7 (Some 1) (Some "sshd"%string) None (Some 3%Q) None
              (Some (mkMem 262144)) (Some "sleeping"%string))].

Lemma forest_row_values_witness :
  exists r, In r (forest_rows (build_forest qs_poll_procs)) /\
    s_pid r = 7 /\ (s_rss r == 1 # 5)%Q /\ (s_mem r == 0)%Q /\ s_user r = "?"%string /\
    exists pid i,
      dget Z.eqb pid qs_poll_procs = Some i /\ r = row_of i /\
      (forall m, i_memory_info i = Some m ->
         (s_rss r == round1 (inject_Z (rss m) / inject_Z (2 ^ 20)))%Q /\
         (Qabs (s_rss r - inject_Z (rss m) / inject_Z (2 ^ 20)) <= 1 # 20)%Q) /\
      (i_memory_info i = None -> (s_rss r == 0)%Q) /\
      (i_cpu_percent i = None -> (s_cpu r == 0)%Q) /\
      (i_memory_percent i = None -> (s_mem r == 0)%Q).
Proof.
  set (r := row_of (mkInfo 7 (Some 1) (Some "sshd"%string) None (Some 3%Q) None
              (Some (mkMem 262144)) (Some "sleeping"%string))).
  assert (Hin : In r (forest_rows (build_forest qs_poll_procs))).
  { vm_compute. right; left; reflexivity. }
  exists r. split; [exact Hin|].
  split; [reflexivity|]. split; [reflexivity|]. split; [reflexivity|].
  split; [reflexivity|].
  exact (forest_row_values qs_poll_procs r Hin).
Defined.

End RowFacts.

Module TreeFacts.
Import Py Refresh.

Lemma in_insert_Z (x y : Z) (l : list Z) : In x (insert_Z y l) <-> y = x \/ In x l.
Proof.
  induction l as [|z l IH]; simpl.
  - split; [intros [H|[]]; auto | intros [H|[]]; auto].
  - destruct (Z.leb y z); simpl; [tauto|]. rewrite IH. tauto.
Qed.

Lemma in_sorted_Z (x : Z) (l : list Z) : In x (sorted_Z l) <-> In x l.
Proof.
  induction l as [|y l IH]; simpl; [tauto|]. rewrite in_insert_Z, IH. tauto.
Qed.

Lemma dget_in_some (k : Z) (v : info) (d : procs_t) :
  In (k, v) d -> exists v', dget Z.eqb k d = Some v'.
Proof.
  induction d as [|[k' v'] d IH]; simpl; [intros []|].
  intros [H|H].
  - injection H as -> ->. rewrite Z.eqb_refl. eexists; reflexivity.
  - destruct (Z.eqb k k'); [eexists; reflexivity | exact (IH H)].
Qed.

(** A record whose ppid is not a pid of the snapshot heads a top-level
    node of the rebuilt store (the part of the root rule the code meets). *)
Lemma roots_are_top_nodes (procs : procs_t) (pid : Z) (fuel : nat) :
  In pid (roots procs) ->
  exists i kids, dget Z.eqb pid procs = Some i /\
                 In (PNode (row_of i) kids) (forest_fuel procs (S fuel)).
Proof.
  intros H. unfold roots in H. apply in_map_iff in H as [[p i0] [Hp Hf]].
  simpl in Hp; subst p. pose proof Hf as Hf'. apply filter_In in Hf' as [Hin _].
  destruct (dget_in_some pid i0 procs Hin) as [i Hi].
  unfold forest_fuel. exists i. eexists. split; [exact Hi|].
  apply in_flat_map. exists pid. split.
  - apply in_sorted_Z. unfold roots. apply in_map_iff. exists (pid, i0).
    split; [reflexivity | exact Hf].
  - simpl. rewrite Hi. left; reflexivity.
Qed.

End TreeFacts.

Module TimerFacts.
Import Timer.

Lemma run_cons (s : state) (e : event) (tr : list event) :
  run s (e :: tr) =
  (fst (run (fst (step s e)) tr), (e, snd (step s e)) :: snd (run (fst (step s e)) tr)).
Proof.
  simpl. destruct (step s e) as [s1 b]. simpl.
  destruct (run s1 tr) as [s2 outs]. reflexivity.
Qed.

Lemma run_auto_off (s : state) (tr : list event) :
  auto_refresh s = false -> ~ In (Toggle true) tr ->
  auto_refresh (fst (run s tr)) = false /\
  Forall (fun eo => fst eo = Tick -> snd eo = false) (snd (run s tr)) /\
  Forall (fun eo => fst eo = Manual -> snd eo = true) (snd (run s tr)).
Proof.
  revert s; induction tr as [|e tr IH]; intros s Ha Hn; [simpl; auto|].
  rewrite run_cons; simpl.
  assert (Ha' : auto_refresh (fst (step s e)) = false).
  { destruct e as [b| | | |]; simpl.
    - destruct b; [exfalso; apply Hn; left; reflexivity | reflexivity].
    - destruct (timer_alive s); [unfold auto_refresh_cb; rewrite Ha|]; exact Ha.
    - exact Ha.
    - exact Ha.
    - destruct (oneshots s); exact Ha. }
  destruct (IH (fst (step s e)) Ha') as [H1 [H2 H3]].
  { intros H; apply Hn; right; exact H. }
  split; [exact H1|]. split; constructor; auto; simpl; intros He; subst e; simpl.
  - destruct (timer_alive s); [unfold auto_refresh_cb; rewrite Ha; simpl|reflexivity].
    rewrite Nat.eqb_refl; reflexivity.
  - reflexivity.
Qed.

(** C7: once the Auto-refresh button is switched off, and as long as it is
    not switched on again, no tick of the periodic timer runs [_refresh],
    while the refresh button still runs it every time. *)
Theorem auto_off_ticks_no_rebuild (s : state) (tr : list event) :
  ~ In (Toggle true) tr ->
  Forall (fun eo => fst eo = Tick -> snd eo = false) (snd (run s (Toggle false :: tr))) /\
  Forall (fun eo => fst eo = Manual -> snd eo = true) (snd (run s (Toggle false :: tr))).
Proof.
  intros Hn. rewrite run_cons. simpl.
  destruct (run_auto_off (mkState false (timer_alive s) (oneshots s) (rebuilds s)) tr
              eq_refl Hn) as [_ [H2 H3]].
  split; constructor; auto; simpl; intros H; discriminate.
Qed.

Lemma auto_off_ticks_no_rebuild_witness :
  ~ In (Toggle true) [Tick; Manual; Tick; SignalSent; OneShot; Tick] /\
  snd (run init (Toggle false :: [Tick; Manual; Tick; SignalSent; OneShot; Tick]))
    = [(Toggle false, false); (Tick, false); (Manual, true); (Tick, false);
       (SignalSent, false); (OneShot, true); (Tick, false)] /\
  Forall (fun eo => fst eo = Tick -> snd eo = false)
    (snd (run init (Toggle false :: [Tick; Manual; Tick; SignalSent; OneShot; Tick]))).
Proof.
  assert (Hn : ~ In (Toggle true) [Tick; Manual; Tick; SignalSent; OneShot; Tick]).
  { simpl. intros H. repeat destruct H as [H|H]; discriminate + contradiction. }
  split; [exact Hn|]. split; [reflexivity|].
  exact (proj1 (auto_off_ticks_no_rebuild init _ Hn)).
Defined.

(** C8 (as stated, refuted): switching Auto-refresh off does not remove
    the 3-second source; it is still registered afterwards and after
    further ticks. *)
Lemma auto_off_timer_still_alive :
  auto_refresh (fst (run init [Toggle false; Tick; Tick])) = false /\
  timer_alive (fst (run init [Toggle false])) = true /\
  timer_alive (fst (run init [Toggle false; Tick; Tick])) = true.
Proof. split; [|split]; reflexivity. Qed.

(** C8 (amended): no event ever removes the periodic source: toggling only
    flips the flag, and [_auto_refresh_cb] returns [True] whether or not
    it rebuilds. *)
Theorem periodic_timer_never_cancelled (s : state) (tr : list event) :
  timer_alive s = true -> timer_alive (fst (run s tr)) = true.
Proof.
  revert s; induction tr as [|e tr IH]; intros s Ht; [exact Ht|].
  rewrite run_cons; simpl. apply IH.
  destruct e as [b| | | |]; simpl; try exact Ht.
  - rewrite Ht. unfold auto_refresh_cb. destruct (auto_refresh s); reflexivity.
  - destruct (oneshots s); exact Ht.
Qed.

Lemma periodic_timer_never_cancelled_witness :
  timer_alive init = true /\
  timer_alive (fst (run init [Toggle false; Tick; Toggle true; Tick; Manual])) = true.
Proof.
  split; [reflexivity|].
  apply periodic_timer_never_cancelled. reflexivity.
Defined.

End TimerFacts.

Module WelcomeFacts.
Import Py Welcome.

Lemma dget_dset_same (k : string) (v : bool) (d : settings) :
  dget String.eqb k (dset String.eqb k v d) = Some v.
Proof.
  induction d as [|[k' v'] d IH]; simpl.
  - rewrite String.eqb_refl; reflexivity.
  - destruct (String.eqb k k') eqn:E; simpl; rewrite E; [reflexivity | exact IH].
Qed.

(** The body of [_on_welcome_close] itself does persist the flag: a later
    [_load_wlc_settings] reads [welcome_shown] as true. *)
Lemma on_welcome_close_persists (st : state) :
  welcome_shown (load (file (on_welcome_close st))) = true.
Proof. unfold welcome_shown; simpl; rewrite dget_dset_same; reflexivity. Qed.

Lemma step_fresh_inv (st : state) (e : event) :
  file st = None -> dialog_open st = false ->
  file (step st e) = None /\ dialog_open (step st e) = false.
Proof.
  intros Hf Hd. destruct e; simpl.
  - unfold activate; rewrite Hf, Hd; simpl; auto.
  - rewrite Hd; auto.
  - auto.
Qed.

(** C6: starting without [welcome.json], in every sequence of activations,
    "Get Started" clicks and restarts the file is never written, the
    dialog never opens, and every further activation again fails to show
    it, raising [AttributeError]. *)
Theorem welcome_flag_never_persisted (tr : list event) :
  file (run fresh tr) = None /\
  dialog_open (run fresh tr) = false /\
  welcome_shown (wlc_settings (fst (activate (run fresh tr)))) = false /\
  snd (activate (run fresh tr)) = Some AttributeError.
Proof.
  assert (H : forall st, file st = None -> dialog_open st = false ->
            file (fold_left step tr st) = None /\
            dialog_open (fold_left step tr st) = false).
  { induction tr as [|e tr IH]; intros st Hf Hd; simpl; [auto|].
    destruct (step_fresh_inv st e Hf Hd) as [Hf' Hd']. apply IH; assumption. }
  destruct (H fresh eq_refl eq_refl) as [Hf Hd].
  unfold run. split; [exact Hf|]. split; [exact Hd|].
  unfold activate. rewrite Hf. split; reflexivity.
Qed.

End WelcomeFacts.

(* ------------------------------------------------------------------ *)
(** * The shape of the rebuilt tree *)

Module TreeTheory.
Import Py Refresh.

(** The dict [procs] as [_refresh] builds it: one entry per key, and each
    key is the pid of its record. *)
Definition procs_wf (procs : procs_t) : Prop :=
  NoDup (map fst procs) /\ (forall k i, In (k, i) procs -> i_pid i = k).

Lemma opt_Zeqb_spec (a b : option Z) : reflect (a = b) (opt_Zeqb a b).
Proof.
  destruct a as [x|], b as [y|]; simpl; try (constructor; congruence).
  destruct (Z.eqb_spec x y); constructor; congruence.
Qed.

Lemma dget_Z_In (k : Z) (v : info) (d : procs_t) :
  dget Z.eqb k d = Some v -> In (k, v) d.
Proof.
  induction d as [|[k' v'] d IH]; simpl; [discriminate|].
  destruct (Z.eqb_spec k k') as [->|_]; [intros H; injection H as ->; left; reflexivity|].
  intros H; right; exact (IH H).
Qed.

Lemma In_dget_Z (k : Z) (v : info) (d : procs_t) :
  NoDup (map fst d) -> In (k, v) d -> dget Z.eqb k d = Some v.
Proof.
  induction d as [|[k' v'] d IH]; simpl; [intros _ []|].
  intros Hnd Hin. inversion Hnd as [|? ? Hn Hnd']; subst.
  destruct (Z.eqb_spec k k') as [->|Hne].
  - destruct Hin as [H|H]; [injection H as ->; reflexivity|].
    exfalso; apply Hn. change k' with (fst (k', v)). apply in_map; exact H.
  - destruct Hin as [H|H]; [injection H as -> ->; contradiction|]. apply IH; assumption.
Qed.

Lemma in_dset_Z (k k' : Z) (v v' : info) (d : procs_t) :
  In (k', v') (dset Z.eqb k v d) -> (k', v') = (k, v) \/ In (k', v') d.
Proof.
  induction d as [|[k2 v2] d IH]; simpl; [intros [H|[]]; auto|].
  destruct (Z.eqb_spec k k2) as [->|_]; simpl.
  - intros [H|H]; auto.
  - intros [H|H]; auto. destruct (IH H); auto.
Qed.

Lemma dset_keys_old (k : Z) (v : info) (d : procs_t) :
  In k (map fst d) -> map fst (dset Z.eqb k v d) = map fst d.
Proof.
  induction d as [|[k' v'] d IH]; simpl; [intros []|].
  destruct (Z.eqb_spec k k') as [->|Hne]; [reflexivity|].
  intros [H|H]; [congruence|]. simpl; f_equal; apply IH; exact H.
Qed.

Lemma dset_wf (i : info) (d : procs_t) :
  procs_wf d -> procs_wf (dset Z.eqb (i_pid i) i d).
Proof.
  intros [Hnd Hk]. split.
  - destruct (in_dec Z.eq_dec (i_pid i) (map fst d)) as [H|H].
    + rewrite dset_keys_old by exact H. exact Hnd.
    + rewrite RefreshFacts.dset_keys_new by exact H.
      apply NoDup_app; [exact Hnd | repeat constructor; intros [] |].
      intros a Ha [<-|[]]. contradiction.
  - intros k' v' Hin. destruct (in_dset_Z _ _ _ _ _ Hin) as [H|H].
    + injection H as -> ->. reflexivity.
    + exact (Hk _ _ H).
Qed.

Lemma enum_loop_keys_In (items : poll) (d d' : procs_t) :
  enum_loop items d = Ok d' ->
  procs_wf d -> procs_wf d' /\
  (forall p, In p (map fst d') <->
             In p (map fst d) \/ exists i, In i (RefreshFacts.oks items) /\ i_pid i = p).
Proof.
  revert d; induction items as [|[i|e] items IH]; intros d E Hwf; simpl in E.
  - injection E as <-. split; [exact Hwf|]. intros p; simpl. firstorder.
  - destruct (IH _ E (dset_wf i d Hwf)) as [Hwf' Hk]. split; [exact Hwf'|].
    intros p. rewrite Hk. simpl.
    assert (Hd : In p (map fst (dset Z.eqb (i_pid i) i d)) <-> In p (map fst d) \/ i_pid i = p).
    { destruct (in_dec Z.eq_dec (i_pid i) (map fst d)) as [H|H].
      - rewrite dset_keys_old by exact H. split; [auto|]. intros [H'|<-]; auto.
      - rewrite RefreshFacts.dset_keys_new by exact H. rewrite in_app_iff; simpl.
        split; intros [H'|H']; auto; destruct H' as [H'|[]]; auto. }
    rewrite Hd. change (RefreshFacts.oks (Ok i :: items)) with (i :: RefreshFacts.oks items).
    split.
    + intros [[H|H]|[j [Hj Hp]]].
      * left; exact H.
      * right; exists i; split; [left; reflexivity | exact H].
      * right; exists j; split; [right; exact Hj | exact Hp].
    + intros [H|[j [[<-|Hj] Hp]]].
      * left; left; exact H.
      * left; right; exact Hp.
      * right; exists j; split; [exact Hj | exact Hp].
  - destruct (caught_enum e); [|discriminate].
    destruct (IH _ E Hwf) as [Hwf' Hk]. split; [exact Hwf'|].
    intros p. rewrite Hk. reflexivity.
Qed.

(** The dict [procs]: one entry per pid, keyed by the record's pid, and its
    keys are exactly the pids of the records the poll delivered. *)
Theorem enumerate_procs (items : poll) (procs : procs_t) :
  enumerate items = Ok procs ->
  procs_wf procs /\
  (forall p, In p (map fst procs) <->
             exists i, In i (RefreshFacts.oks items) /\ i_pid i = p).
Proof.
  intros E. destruct (enum_loop_keys_In items [] procs E) as [Hwf Hk].
  - split; [constructor | intros k i []].
  - split; [exact Hwf|]. intros p; rewrite Hk; simpl; tauto.
Qed.

Definition dup_poll : poll :=
  [Ok RefreshFacts.init1; Err AccessDenied; Ok (RefreshFacts.proc 7 (Some 1) "sshd");
   Ok (RefreshFacts.proc 7 (Some 1) "sshd-session")].

Lemma enumerate_procs_witness :
  enumerate dup_poll = Ok [(1, RefreshFacts.init1); (7, RefreshFacts.proc 7 (Some 1) "sshd-session")] /\
  procs_wf [(1, RefreshFacts.init1); (7, RefreshFacts.proc 7 (Some 1) "sshd-session")].
Proof.
  split; [reflexivity|].
  exact (proj1 (enumerate_procs dup_poll _ eq_refl)).
Defined.

(** [children.get(pid, [])] *)
Definition children_get (procs : procs_t) (p : Z) : list Z :=
  match dget opt_Zeqb (Some p) (children_of procs) with Some l => l | None => [] end.

Definition getl (k : option Z) (ch : list (option Z * list Z)) : list Z :=
  match dget opt_Zeqb k ch with Some l => l | None => [] end.

Lemma dget_dset_opt (k k' : option Z) (v : list Z) (ch : list (option Z * list Z)) :
  dget opt_Zeqb k (dset opt_Zeqb k' v ch)
  = if opt_Zeqb k k' then Some v else dget opt_Zeqb k ch.
Proof.
  induction ch as [|[k2 v2] ch IH]; simpl; [reflexivity|].
  destruct (opt_Zeqb_spec k' k2) as [->|Hne]; simpl.
  - destruct (opt_Zeqb k k2); reflexivity.
  - rewrite IH. destruct (opt_Zeqb_spec k k2) as [E1|_], (opt_Zeqb_spec k k') as [E2|_];
      try reflexivity; congruence.
Qed.

Lemma children_fold (l : procs_t) (ch : list (option Z * list Z)) (k : option Z) :
  getl k (fold_left (fun ch '(pid, i) =>
               let old := match dget opt_Zeqb (i_ppid i) ch with
                          | Some l => l | None => [] end in
               dset opt_Zeqb (i_ppid i) (old ++ [pid]) ch) l ch)
  = getl k ch ++ map fst (filter (fun '(_, i) => opt_Zeqb (i_ppid i) k) l).
Proof.
  revert ch; induction l as [|[pid i] l IH]; intros ch; simpl.
  - rewrite app_nil_r; reflexivity.
  - rewrite IH. unfold getl at 1. rewrite dget_dset_opt.
    destruct (opt_Zeqb_spec k (i_ppid i)) as [->|Hne].
    + destruct (opt_Zeqb_spec (i_ppid i) (i_ppid i)) as [_|C]; [|contradiction].
      simpl. rewrite <- app_assoc. reflexivity.
    + destruct (opt_Zeqb_spec (i_ppid i) k) as [E|_]; [congruence|]. reflexivity.
Qed.

Lemma children_get_filter (procs : procs_t) (p : Z) :
  children_get procs p
  = map fst (filter (fun '(_, i) => opt_Zeqb (i_ppid i) (Some p)) procs).
Proof.
  unfold children_get, children_of.
  change (match dget opt_Zeqb (Some p) _ with Some l => l | None => [] end)
    with (getl (Some p) (fold_left (fun ch '(pid, i) =>
               let old := match dget opt_Zeqb (i_ppid i) ch with
                          | Some l => l | None => [] end in
               dset opt_Zeqb (i_ppid i) (old ++ [pid]) ch) procs [])).
  rewrite children_fold. reflexivity.
Qed.

(** [children.get(pid, [])] lists the pids of the records whose ppid is
    [pid], in the order of [procs]. *)
Theorem children_get_spec (procs : procs_t) (p : Z) :
  children_get procs p
  = map fst (filter (fun '(_, i) => opt_Zeqb (i_ppid i) (Some p)) procs).
Proof. exact (children_get_filter procs p). Qed.

End TreeTheory.

Module TreeShape.
Import Py Refresh TreeTheory.

Section Ancestry.
Variable procs : procs_t.

(** The ppid of [x] when it is a pid of the snapshot: the edge [add_tree]
    follows from parent to child. *)
Definition parent (x : Z) : option Z :=
  match dget Z.eqb x procs with
  | Some i => match i_ppid i with
              | Some q => if dmem Z.eqb q procs then Some q else None
              | None => None
              end
  | None => None
  end.

(** The ancestor [k] steps up the ppid chain inside the snapshot. *)
Fixpoint anc (x : Z) (k : nat) : option Z :=
  match k with
  | O => Some x
  | S k' => match parent x with Some y => anc y k' | None => None end
  end.

(** The ppid chain of [x] leaves the snapshot after finitely many steps. *)
Definition chain_ends (x : Z) : Prop := exists n, anc x n = None.

Lemma anc_add (x : Z) (a b : nat) :
  anc x (a + b) = match anc x a with Some y => anc y b | None => None end.
Proof.
  revert x; induction a as [|a IH]; intros x; simpl; [reflexivity|].
  destruct (parent x); [apply IH | reflexivity].
Qed.

Lemma anc_last (x : Z) (k : nat) :
  anc x (S k) = match anc x k with Some y => parent y | None => None end.
Proof.
  rewrite <- Nat.add_1_r, anc_add. destruct (anc x k) as [y|]; [|reflexivity].
  simpl; destruct (parent y); reflexivity.
Qed.

Lemma anc_none_mono (x : Z) (n m : nat) :
  anc x n = None -> (n <= m)%nat -> anc x m = None.
Proof.
  intros H Hle. replace m with (n + (m - n))%nat by lia.
  rewrite anc_add, H; reflexivity.
Qed.

Lemma chain_ends_anc (x y : Z) (k : nat) :
  chain_ends x -> anc x k = Some y -> chain_ends y.
Proof.
  intros [n Hn] Hk. destruct (Nat.le_gt_cases n k) as [Hle|Hlt].
  - rewrite (anc_none_mono x n k Hn Hle) in Hk; discriminate.
  - exists (n - k)%nat. replace n with (k + (n - k))%nat in Hn by lia.
    rewrite anc_add, Hk in Hn; exact Hn.
Qed.

Lemma no_cycle (p : Z) (j : nat) :
  chain_ends p -> anc p (S j) = Some p -> False.
Proof.
  intros [n Hn] Hc.
  assert (Ht : forall t, anc p (t * S j) = Some p).
  { induction t as [|t IH]; [reflexivity|].
    rewrite Nat.mul_succ_l, anc_add, IH; exact Hc. }
  specialize (Ht n).
  rewrite (anc_none_mono p n (n * S j) Hn) in Ht by nia. discriminate.
Qed.

Lemma dmem_key (q : Z) : dmem Z.eqb q procs = true -> In q (map fst procs).
Proof.
  unfold dmem. destruct (dget Z.eqb q procs) as [v|] eqn:E; [|discriminate].
  intros _. apply dget_Z_In in E. change q with (fst (q, v)). apply in_map; exact E.
Qed.

Lemma key_dmem (q : Z) : In q (map fst procs) -> dmem Z.eqb q procs = true.
Proof.
  intros H. apply in_map_iff in H as [[k v] [Hk Hin]]; simpl in Hk; subst k.
  destruct (TreeFacts.dget_in_some q v procs Hin) as [v' E].
  unfold dmem; rewrite E; reflexivity.
Qed.

Lemma parent_key (x y : Z) : parent x = Some y -> In y (map fst procs).
Proof.
  unfold parent. destruct (dget Z.eqb x procs) as [i|]; [|discriminate].
  destruct (i_ppid i) as [q|]; [|discriminate].
  destruct (dmem Z.eqb q procs) eqn:E; [|discriminate].
  intros H; injection H as <-. apply dmem_key; exact E.
Qed.

Lemma parent_src_key (x y : Z) : parent x = Some y -> In x (map fst procs).
Proof.
  unfold parent. destruct (dget Z.eqb x procs) as [i|] eqn:E; [|discriminate].
  intros _. apply dget_Z_In in E. change x with (fst (x, i)). apply in_map; exact E.
Qed.

Lemma anc_key (x y : Z) (k : nat) :
  In x (map fst procs) -> anc x k = Some y -> In y (map fst procs).
Proof.
  revert x; induction k as [|k IH]; intros x Hx; simpl.
  - intros H; injection H as <-; exact Hx.
  - destruct (parent x) as [z|] eqn:E; [|discriminate].
    apply IH. exact (parent_key x z E).
Qed.

Lemma NoDup_fst_filter (f : Z * info -> bool) (l : procs_t) :
  NoDup (map fst l) -> NoDup (map fst (filter f l)).
Proof.
  induction l as [|a l IH]; simpl; [auto|].
  intros Hnd. inversion Hnd as [|? ? Hn Hnd']; subst.
  destruct (f a); simpl; [|apply IH; exact Hnd'].
  constructor; [|apply IH; exact Hnd'].
  intros H; apply Hn. apply in_map_iff in H as [b [Hb Hin]].
  apply filter_In in Hin as [Hin _]. rewrite <- Hb. apply in_map; exact Hin.
Qed.

Hypothesis Hwf : procs_wf procs.

Lemma children_NoDup (p : Z) : NoDup (children_get procs p).
Proof. rewrite children_get_filter. apply NoDup_fst_filter, (proj1 Hwf). Qed.

Lemma children_parent (p c : Z) :
  In p (map fst procs) -> In c (children_get procs p) -> parent c = Some p.
Proof.
  intros Hp Hc. rewrite children_get_filter in Hc.
  apply in_map_iff in Hc as [[c' i] [Hc Hin]]; simpl in Hc; subst c'.
  apply filter_In in Hin as [Hin Hq].
  destruct (opt_Zeqb_spec (i_ppid i) (Some p)) as [Eq|]; [|discriminate].
  unfold parent. rewrite (In_dget_Z c i procs (proj1 Hwf) Hin), Eq, key_dmem by exact Hp.
  reflexivity.
Qed.

Lemma parent_children (p c : Z) :
  parent c = Some p -> In c (children_get procs p).
Proof.
  unfold parent. destruct (dget Z.eqb c procs) as [i|] eqn:E; [|discriminate].
  destruct (i_ppid i) as [q|] eqn:Eq; [|discriminate].
  destruct (dmem Z.eqb q procs); [|discriminate]. intros H; injection H as <-.
  rewrite children_get_filter. apply in_map_iff. exists (c, i). split; [reflexivity|].
  apply filter_In. split; [exact (dget_Z_In _ _ _ E)|]. rewrite Eq; simpl.
  apply Z.eqb_refl.
Qed.

Lemma children_key (p c : Z) : In c (children_get procs p) -> In c (map fst procs).
Proof.
  rewrite children_get_filter. intros H.
  apply in_map_iff in H as [[c' i] [Hc Hin]]; simpl in Hc; subst c'.
  apply filter_In in Hin as [Hin _]. change c with (fst (c, i)). apply in_map; exact Hin.
Qed.

Lemma add_tree_S_pids (f : nat) (p : Z) :
  In p (map fst procs) ->
  forest_pids (add_tree procs (S f) p)
  = p :: flat_map (fun c => forest_pids (add_tree procs f c)) (children_get procs p).
Proof.
  intros Hp. apply in_map_iff in Hp as [[k i] [Hk Hin]]; simpl in Hk; subst k.
  pose proof (In_dget_Z p i procs (proj1 Hwf) Hin) as E.
  simpl. rewrite E. unfold forest_pids, forest_rows at 1.
  change (flat_map tree_rows [PNode (row_of i) ?ks]) with (tree_rows (PNode (row_of i) ks) ++ []).
  rewrite app_nil_r, RowFacts.tree_rows_node. simpl.
  rewrite ((proj2 Hwf) p i Hin). f_equal.
  fold (children_get procs p).
  induction (children_get procs p) as [|c l IH]; simpl; [reflexivity|].
  unfold forest_rows in *. rewrite flat_map_app, map_app, IH. reflexivity.
Qed.

Lemma NoDup_flat_map_disjoint {A : Type} (g : A -> list Z) (l : list A) :
  NoDup l -> (forall a, In a l -> NoDup (g a)) ->
  (forall a b x, In a l -> In b l -> In x (g a) -> In x (g b) -> a = b) ->
  NoDup (flat_map g l).
Proof.
  induction l as [|a l IH]; simpl; intros Hnd Hg Hdis; [constructor|].
  inversion Hnd as [|? ? Hn Hnd']; subst.
  apply NoDup_app.
  - apply Hg; left; reflexivity.
  - apply IH; [exact Hnd' | intros b Hb; apply Hg; right; exact Hb |].
    intros b c x Hb Hc; apply Hdis; right; assumption.
  - intros x Hx Hx'. apply in_flat_map in Hx' as [b [Hb Hxb]].
    assert (a = b) by (apply (Hdis a b x); auto). subst b. contradiction.
Qed.

Lemma siblings_same (p c1 c2 x : Z) (k1 k2 : nat) :
  chain_ends p -> parent c1 = Some p -> parent c2 = Some p ->
  anc x k1 = Some c1 -> anc x k2 = Some c2 -> c1 = c2.
Proof.
  intros Hp H1 H2.
  assert (Hle : forall c c' k k', (k <= k')%nat -> parent c = Some p ->
                parent c' = Some p -> anc x k = Some c -> anc x k' = Some c' -> c = c').
  { intros c c' k k' Hk Hc Hc' Ek Ek'.
    replace k' with (k + (k' - k))%nat in Ek' by lia.
    rewrite anc_add, Ek in Ek'. destruct (k' - k)%nat as [|d] eqn:D.
    - injection Ek' as ->; reflexivity.
    - simpl in Ek'. rewrite Hc in Ek'. exfalso. apply (no_cycle p d Hp).
      rewrite anc_last, Ek'. exact Hc'. }
  intros E1 E2. destruct (Nat.le_gt_cases k1 k2).
  - exact (Hle c1 c2 k1 k2 ltac:(lia) H1 H2 E1 E2).
  - symmetry. exact (Hle c2 c1 k2 k1 ltac:(lia) H2 H1 E2 E1).
Qed.

Lemma roots_same (r1 r2 x : Z) (k1 k2 : nat) :
  parent r1 = None -> parent r2 = None ->
  anc x k1 = Some r1 -> anc x k2 = Some r2 -> r1 = r2.
Proof.
  intros H1 H2.
  assert (Hle : forall r r' k k', (k <= k')%nat -> parent r = None ->
                anc x k = Some r -> anc x k' = Some r' -> r = r').
  { intros r r' k k' Hk Hr Ek Ek'.
    replace k' with (k + (k' - k))%nat in Ek' by lia.
    rewrite anc_add, Ek in Ek'. destruct (k' - k)%nat as [|d].
    - injection Ek' as ->; reflexivity.
    - simpl in Ek'. rewrite Hr in Ek'. discriminate. }
  intros E1 E2. destruct (Nat.le_gt_cases k1 k2).
  - exact (Hle r1 r2 k1 k2 ltac:(lia) H1 E1 E2).
  - symmetry. exact (Hle r2 r1 k2 k1 ltac:(lia) H2 E2 E1).
Qed.

Lemma chain_ends_child (p c : Z) :
  chain_ends p -> parent c = Some p -> chain_ends c.
Proof. intros [n Hn] Hc. exists (S n). simpl. rewrite Hc. exact Hn. Qed.

(** The subtree [add_tree] builds under a pid whose chain ends: no pid twice,
    and every pid in it lies below the subtree's root on the ppid chain. *)
Lemma add_tree_shape (f : nat) (p : Z) :
  In p (map fst procs) -> chain_ends p ->
  NoDup (forest_pids (add_tree procs f p)) /\
  (forall x, In x (forest_pids (add_tree procs f p)) -> exists k, anc x k = Some p).
Proof.
  revert p; induction f as [|f IH]; intros p Hp Hfin.
  - split; [constructor | intros x []].
  - rewrite (add_tree_S_pids f p Hp).
    assert (Hc : forall c, In c (children_get procs p) ->
              NoDup (forest_pids (add_tree procs f c)) /\
              (forall x, In x (forest_pids (add_tree procs f c)) -> exists k, anc x k = Some c)).
    { intros c Hc. apply IH; [exact (children_key p c Hc)|].
      exact (chain_ends_child p c Hfin (children_parent p c Hp Hc)). }
    split.
    + constructor.
      * intros Hin. apply in_flat_map in Hin as [c [Hcin Hx]].
        destruct (proj2 (Hc c Hcin) p Hx) as [k Hk].
        apply (no_cycle p k Hfin). rewrite anc_last, Hk.
        exact (children_parent p c Hp Hcin).
      * apply NoDup_flat_map_disjoint; [apply children_NoDup | |].
        -- intros c Hcin; exact (proj1 (Hc c Hcin)).
        -- intros a b x Ha Hb Hxa Hxb.
           destruct (proj2 (Hc a Ha) x Hxa) as [ka Ea].
           destruct (proj2 (Hc b Hb) x Hxb) as [kb Eb].
           exact (siblings_same p a b x ka kb Hfin (children_parent p a Hp Ha)
                    (children_parent p b Hp Hb) Ea Eb).
    + intros x [<-|Hin]; [exists 0%nat; reflexivity|].
      apply in_flat_map in Hin as [c [Hcin Hx]].
      destruct (proj2 (Hc c Hcin) x Hx) as [k Hk]. exists (S k).
      rewrite anc_last, Hk. exact (children_parent p c Hp Hcin).
Qed.

Lemma roots_spec (r : Z) :
  In r (roots procs) <-> In r (map fst procs) /\ parent r = None.
Proof.
  unfold roots. rewrite in_map_iff. split.
  - intros [[k i] [Hk Hin]]; simpl in Hk; subst k.
    apply filter_In in Hin as [Hin Hn].
    split; [change r with (fst (r, i)); apply in_map; exact Hin|].
    unfold parent. rewrite (In_dget_Z r i procs (proj1 Hwf) Hin).
    unfold ppid_in in Hn. destruct (i_ppid i) as [q|]; [|reflexivity].
    destruct (dmem Z.eqb q procs); [discriminate | reflexivity].
  - intros [Hr Hn]. apply in_map_iff in Hr as [[k i] [Hk Hin]]; simpl in Hk; subst k.
    exists (r, i). split; [reflexivity|]. apply filter_In; split; [exact Hin|].
    unfold parent in Hn. rewrite (In_dget_Z r i procs (proj1 Hwf) Hin) in Hn.
    unfold ppid_in. destruct (i_ppid i) as [q|]; [|reflexivity].
    destruct (dmem Z.eqb q procs); [discriminate | reflexivity].
Qed.

Lemma perm_insert_Z (x : Z) (l : list Z) : Permutation (insert_Z x l) (x :: l).
Proof.
  induction l as [|y l IH]; simpl; [reflexivity|].
  destruct (Z.leb x y); [reflexivity|].
  etransitivity; [apply perm_skip, IH | apply perm_swap].
Qed.

Lemma perm_sorted_Z (l : list Z) : Permutation (sorted_Z l) l.
Proof.
  induction l as [|x l IH]; simpl; [reflexivity|].
  etransitivity; [apply perm_insert_Z | apply perm_skip, IH].
Qed.

Lemma forest_pids_flat_map (g : Z -> list ptree) (l : list Z) :
  forest_pids (flat_map g l) = flat_map (fun a => forest_pids (g a)) l.
Proof.
  induction l as [|a l IH]; simpl; [reflexivity|].
  unfold forest_pids, forest_rows in *. rewrite !flat_map_app, map_app, IH. reflexivity.
Qed.

Lemma forest_shape (f : nat) :
  NoDup (forest_pids (forest_fuel procs f)) /\
  (forall x, In x (forest_pids (forest_fuel procs f)) ->
     exists r k, In r (roots procs) /\ anc x k = Some r).
Proof.
  unfold forest_fuel. rewrite forest_pids_flat_map.
  assert (Hr : forall r, In r (sorted_Z (roots procs)) ->
            In r (map fst procs) /\ parent r = None).
  { intros r H. apply roots_spec. apply TreeFacts.in_sorted_Z; exact H. }
  assert (Hs : forall r, In r (sorted_Z (roots procs)) ->
            NoDup (forest_pids (add_tree procs f r)) /\
            (forall x, In x (forest_pids (add_tree procs f r)) -> exists k, anc x k = Some r)).
  { intros r H. destruct (Hr r H) as [Hk Hn]. apply add_tree_shape; [exact Hk|].
    exists 1%nat. simpl. rewrite Hn. reflexivity. }
  split.
  - apply NoDup_flat_map_disjoint.
    + eapply Permutation_NoDup; [symmetry; apply perm_sorted_Z|].
      unfold roots. apply NoDup_fst_filter, (proj1 Hwf).
    + intros r H; exact (proj1 (Hs r H)).
    + intros a b x Ha Hb Hxa Hxb.
      destruct (proj2 (Hs a Ha) x Hxa) as [ka Ea].
      destruct (proj2 (Hs b Hb) x Hxb) as [kb Eb].
      exact (roots_same a b x ka kb (proj2 (Hr a Ha)) (proj2 (Hr b Hb)) Ea Eb).
  - intros x Hx. apply in_flat_map in Hx as [r [Hrin Hx]].
    destruct (proj2 (Hs r Hrin) x Hx) as [k Hk]. exists r, k.
    split; [apply TreeFacts.in_sorted_Z; exact Hrin | exact Hk].
Qed.

Lemma NoDup_map_inj {A B : Type} (g : A -> B) (l : list A) :
  (forall a b, In a l -> In b l -> g a = g b -> a = b) -> NoDup l -> NoDup (map g l).
Proof.
  induction l as [|a l IH]; simpl; intros Hinj Hnd; [constructor|].
  inversion Hnd as [|? ? Hn Hnd']; subst. constructor.
  - intros H. apply in_map_iff in H as [b [Hb Hbin]].
    assert (b = a) by (apply Hinj; auto). subst b. contradiction.
  - apply IH; [intros a' b' Ha Hb; apply Hinj; auto | exact Hnd'].
Qed.

(** A chain that ends has at most [length procs] links: its members are
    distinct pids of the snapshot. *)
Lemma chain_depth_bound (x r : Z) (k : nat) :
  In x (map fst procs) -> chain_ends x -> anc x k = Some r ->
  (k < length procs)%nat.
Proof.
  intros Hx Hfin Hk.
  set (g := fun j => match anc x j with Some y => y | None => x end).
  assert (Hs : forall j, (j <= k)%nat -> anc x j = Some (g j)).
  { intros j Hj. unfold g. destruct (anc x j) eqn:E; [reflexivity|].
    rewrite (anc_none_mono x j k E Hj) in Hk; discriminate. }
  assert (Hlt : forall i j, (i < j <= k)%nat -> g i = g j -> False).
  { intros i j Hij Eg. pose proof (Hs i ltac:(lia)) as Ei. pose proof (Hs j ltac:(lia)) as Ej.
    rewrite <- Eg in Ej. replace j with (i + S (j - i - 1))%nat in Ej by lia.
    rewrite anc_add, Ei in Ej.
    exact (no_cycle (g i) (j - i - 1) (chain_ends_anc x (g i) i Hfin Ei) Ej). }
  assert (Hnd : NoDup (map g (seq 0 (S k)))).
  { apply NoDup_map_inj; [|apply seq_NoDup].
    intros a b Ha Hb E. apply in_seq in Ha, Hb.
    destruct (Nat.lt_trichotomy a b) as [H|[H|H]]; [| exact H |].
    - exfalso; apply (Hlt a b); [lia | exact E].
    - exfalso; apply (Hlt b a); [lia | symmetry; exact E]. }
  assert (Hincl : incl (map g (seq 0 (S k))) (map fst procs)).
  { intros y Hy. apply in_map_iff in Hy as [j [<- Hj]]. apply in_seq in Hj.
    exact (anc_key x (g j) j Hx (Hs j ltac:(lia))). }
  pose proof (NoDup_incl_length Hnd Hincl) as L.
  rewrite length_map, length_seq, length_map in L. lia.
Qed.

Lemma add_tree_complete (k : nat) :
  forall x r f, anc x k = Some r -> In r (map fst procs) -> (k < f)%nat ->
  In x (forest_pids (add_tree procs f r)).
Proof.
  induction k as [|k IH]; intros x r f Hk Hr Hf;
    (destruct f as [|f]; [lia|]); rewrite (add_tree_S_pids f r Hr).
  - injection Hk as ->. left; reflexivity.
  - rewrite anc_last in Hk. destruct (anc x k) as [c|] eqn:Ec; [|discriminate].
    right. apply in_flat_map. exists c. split; [exact (parent_children r c Hk)|].
    apply IH; [exact Ec | exact (parent_src_key c r Hk) | lia].
Qed.

Lemma chain_end_root (x : Z) (n : nat) :
  anc x n = None -> exists k r, anc x k = Some r /\ parent r = None.
Proof.
  induction n as [|n IH]; [discriminate|].
  intros H. destruct (anc x n) as [r|] eqn:E.
  - exists n, r. split; [exact E|]. rewrite anc_last, E in H. exact H.
  - exact (IH eq_refl).
Qed.

(** No process shows up twice in the rebuilt tree. *)
Theorem build_forest_NoDup : NoDup (forest_pids (build_forest procs)).
Proof. exact (proj1 (forest_shape _)). Qed.

(** A pid is a node of the rebuilt tree exactly when it is a pid of the
    snapshot whose ppid chain leaves the snapshot: the processes that are
    missing are those on a ppid cycle or below one. *)
Theorem build_forest_members (x : Z) :
  In x (forest_pids (build_forest procs)) <->
  In x (map fst procs) /\ chain_ends x.
Proof.
  split.
  - intros H. destruct (proj2 (forest_shape _) x H) as [r [k [Hr Hk]]].
    apply roots_spec in Hr as [Hrk Hrn].
    assert (Hfin : chain_ends x) by (exists (S k); rewrite anc_last, Hk; exact Hrn).
    split; [|exact Hfin].
    destruct k as [|k]; [injection Hk as ->; exact Hrk|].
    simpl in Hk. destruct (parent x) as [y|] eqn:E; [|discriminate].
    exact (parent_src_key x y E).
  - intros [Hx Hfin]. destruct Hfin as [n Hn].
    destruct (chain_end_root x n Hn) as [k [r [Hk Hr]]].
    assert (Hrk : In r (map fst procs)) by exact (anc_key x r k Hx Hk).
    pose proof (chain_depth_bound x r k Hx (ex_intro _ n Hn) Hk) as Hb.
    unfold build_forest, forest_fuel. rewrite forest_pids_flat_map.
    apply in_flat_map. exists r. split.
    + apply TreeFacts.in_sorted_Z, roots_spec. split; assumption.
    + apply (add_tree_complete k x r); [exact Hk | exact Hrk | lia].
Qed.

End Ancestry.
End TreeShape.

Module TreeShapeWitness.
Import Py Refresh TreeTheory TreeShape.

Definition mixed_procs : procs_t :=
  [(1, RefreshFacts.init1); (5, RefreshFacts.selfloop);
   (7, RefreshFacts.proc 7 (Some 1) "sshd"); (8, RefreshFacts.proc 8 (Some 5) "child")].

Lemma mixed_procs_wf : procs_wf mixed_procs.
Proof.
  split.
  - simpl. repeat constructor; simpl; lia.
  - intros k i H. simpl in H.
    repeat destruct H as [H|H]; try (injection H as <- <-; reflexivity); contradiction.
Qed.

Lemma build_forest_NoDup_witness :
  NoDup (forest_pids (build_forest mixed_procs)).
Proof. exact (build_forest_NoDup mixed_procs mixed_procs_wf). Defined.

Lemma build_forest_members_witness :
  forest_pids (build_forest mixed_procs) = [1; 7] /\
  (In 7 (forest_pids (build_forest mixed_procs)) <->
   In 7 (map fst mixed_procs) /\ chain_ends mixed_procs 7).
Proof.
  split; [reflexivity|].
  exact (build_forest_members mixed_procs mixed_procs_wf 7).
Defined.

End TreeShapeWitness.

Module TreeEdges.
Import Py Refresh TreeTheory TreeShape.

(** The row at the top of a node. *)
Definition troot (t : ptree) : srow := match t with PNode r _ => r end.

(** The parent-child pairs of a tree: a parent's pid and a child's row. *)
Fixpoint tree_edges (t : ptree) : list (Z * srow) :=
  match t with
  | PNode r ks => (fix go (l : list ptree) : list (Z * srow) :=
                     match l with
                     | [] => []
                     | t' :: l' => (s_pid r, troot t') :: tree_edges t' ++ go l'
                     end) ks
  end.

Definition forest_edges (f : list ptree) : list (Z * srow) := flat_map tree_edges f.

Lemma tree_edges_node (r : srow) (ks : list ptree) :
  tree_edges (PNode r ks) = flat_map (fun t' => (s_pid r, troot t') :: tree_edges t') ks.
Proof. reflexivity. Qed.

Lemma insert_Z_hd (y x : Z) (l : list Z) :
  (y <= x) -> HdRel Z.le y l -> HdRel Z.le y (insert_Z x l).
Proof.
  intros Hyx Hl. destruct l as [|z l]; simpl.
  - constructor; exact Hyx.
  - destruct (Z.leb x z); constructor; [exact Hyx|]. inversion Hl; assumption.
Qed.

Lemma insert_Z_sorted (x : Z) (l : list Z) :
  Sorted Z.le l -> Sorted Z.le (insert_Z x l).
Proof.
  induction l as [|y l IH]; simpl; intros Hs; [repeat constructor|].
  destruct (Z.leb_spec x y) as [Hxy|Hxy].
  - constructor; [exact Hs | constructor; exact Hxy].
  - inversion Hs as [|? ? Hs' Hhd]; subst. constructor; [apply IH; exact Hs'|].
    apply insert_Z_hd; [lia | exact Hhd].
Qed.

Lemma sorted_Z_sorted (l : list Z) : Sorted Z.le (sorted_Z l).
Proof. induction l as [|x l IH]; simpl; [constructor | apply insert_Z_sorted, IH]. Qed.

Section Edges.
Variable procs : procs_t.
Hypothesis Hwf : procs_wf procs.

Lemma add_tree_S_key (f : nat) (p : Z) :
  In p (map fst procs) ->
  exists i, dget Z.eqb p procs = Some i /\ i_pid i = p /\
    add_tree procs (S f) p
    = [PNode (row_of i) (flat_map (add_tree procs f) (children_get procs p))].
Proof.
  intros Hp. apply in_map_iff in Hp as [[k i] [Hk Hin]]; simpl in Hk; subst k.
  exists i. pose proof (In_dget_Z p i procs (proj1 Hwf) Hin) as E.
  split; [exact E|]. split; [exact (proj2 Hwf p i Hin)|].
  simpl. rewrite E. reflexivity.
Qed.

Lemma add_tree_troot (f : nat) (c : Z) (t : ptree) :
  In c (map fst procs) -> In t (add_tree procs f c) ->
  exists i, dget Z.eqb c procs = Some i /\ troot t = row_of i.
Proof.
  intros Hc. destruct f as [|f]; [intros []|].
  destruct (add_tree_S_key f c Hc) as [i [E [_ ->]]].
  intros [<-|[]]. exists i; split; [exact E | reflexivity].
Qed.

Lemma add_tree_edges (f : nat) (p : Z) :
  In p (map fst procs) ->
  forall e, In e (forest_edges (add_tree procs f p)) -> s_ppid (snd e) = Some (fst e).
Proof.
  revert p; induction f as [|f IH]; intros p Hp e He; [destruct He|].
  destruct (add_tree_S_key f p Hp) as [ip [Ep [Hpid Et]]]. rewrite Et in He.
  unfold forest_edges in He. cbn [flat_map] in He. rewrite app_nil_r, tree_edges_node in He.
  apply in_flat_map in He as [t' [Ht' He]].
  apply in_flat_map in Ht' as [c [Hc Ht']].
  pose proof (children_key procs p c Hc) as Hck.
  destruct He as [<-|He].
  - simpl. destruct (add_tree_troot f c t' Hck Ht') as [ic [Ec ->]].
    pose proof (children_parent procs Hwf p c Hp Hc) as Hpar.
    unfold parent in Hpar. rewrite Ec in Hpar. simpl. rewrite Hpid.
    destruct (i_ppid ic) as [q|]; [|discriminate].
    destruct (dmem Z.eqb q procs); [exact Hpar | discriminate].
  - apply (IH c Hck). unfold forest_edges. apply in_flat_map. exists t'; auto.
Qed.

(** Each row is placed directly under the node of its ppid: for every
    parent-child pair of the rebuilt tree, the child's PPID cell is the
    parent's pid. *)
Theorem build_forest_edges (p : Z) (r : srow) :
  In (p, r) (forest_edges (build_forest procs)) -> s_ppid r = Some p.
Proof.
  unfold build_forest, forest_fuel, forest_edges. intros H.
  apply in_flat_map in H as [t [Ht He]]. apply in_flat_map in Ht as [root [Hr Ht]].
  apply TreeFacts.in_sorted_Z, (roots_spec procs Hwf) in Hr as [Hrk _].
  exact (add_tree_edges _ root Hrk (p, r) ltac:(unfold forest_edges; apply in_flat_map; eauto)).
Qed.

(** The top-level rows of the rebuilt store are the records whose ppid is
    not a pid of the snapshot, one each, in ascending pid order. *)
Theorem build_forest_top_level :
  map (fun t => s_pid (troot t)) (build_forest procs) = sorted_Z (roots procs) /\
  Sorted Z.le (map (fun t => s_pid (troot t)) (build_forest procs)) /\
  (forall t, In t (build_forest procs) ->
     ~ (exists q, s_ppid (troot t) = Some q /\ In q (map fst procs))).
Proof.
  assert (Hk : forall r, In r (sorted_Z (roots procs)) ->
             In r (map fst procs) /\ parent procs r = None).
  { intros r H. apply (roots_spec procs Hwf), TreeFacts.in_sorted_Z, H. }
  assert (Hm : map (fun t => s_pid (troot t)) (build_forest procs) = sorted_Z (roots procs)).
  { unfold build_forest, forest_fuel. revert Hk.
    generalize (sorted_Z (roots procs)) as l.
    induction l as [|r l IH]; intros Hk; [reflexivity|].
    cbn [flat_map]. rewrite map_app.
    destruct (Hk r (or_introl eq_refl)) as [Hr _].
    destruct (add_tree_S_key (length procs) r Hr) as [i [_ [Hpid ->]]].
    simpl. rewrite Hpid. f_equal. apply IH. intros r' H'. apply Hk. right; exact H'. }
  split; [exact Hm|]. split; [rewrite Hm; apply sorted_Z_sorted|].
  intros t Ht [q [Hq Hqk]].
  unfold build_forest, forest_fuel in Ht. apply in_flat_map in Ht as [r [Hr Ht]].
  destruct (Hk r Hr) as [Hrk Hpn].
  destruct (add_tree_troot _ r t Hrk Ht) as [i [E Er]].
  rewrite Er in Hq. simpl in Hq.
  unfold parent in Hpn. rewrite E, Hq, (key_dmem procs q Hqk) in Hpn. discriminate.
Qed.

End Edges.

Lemma build_forest_edges_witness :
  forest_edges (build_forest TreeShapeWitness.mixed_procs)
    = [(1, row_of (RefreshFacts.proc 7 (Some 1) "sshd"))] /\
  s_ppid (row_of (RefreshFacts.proc 7 (Some 1) "sshd")) = Some 1.
Proof.
  split; [reflexivity|].
  apply (build_forest_edges TreeShapeWitness.mixed_procs
           TreeShapeWitness.mixed_procs_wf 1).
  vm_compute. left; reflexivity.
Defined.

Lemma build_forest_top_level_witness :
  map (fun t => s_pid (troot t)) (build_forest TreeShapeWitness.mixed_procs) = [1].
Proof.
  exact (proj1 (build_forest_top_level TreeShapeWitness.mixed_procs
                  TreeShapeWitness.mixed_procs_wf)).
Defined.

End TreeEdges.

Module FilterTheory.
Import PyStr Filter.

Lemma lower_char_idem (c : ascii) : lower_char (lower_char c) = lower_char c.
Proof. destruct c as [[] [] [] [] [] [] [] []]; reflexivity. Qed.

Lemma lower_idem (s : string) : lower (lower s) = lower s.
Proof. induction s as [|c s IH]; simpl; [reflexivity | rewrite lower_char_idem, IH; reflexivity]. Qed.

Lemma lower_empty (s : string) : lower s = EmptyString <-> s = EmptyString.
Proof. destruct s; simpl; split; discriminate || reflexivity. Qed.








(** Case-insensitivity: lower-casing the search text before typing it
    does not change which rows [_filter_func] accepts. *)
Theorem filter_func_lower (s : string) (r : row) :
  filter_func (lower s) r = filter_func s r.
Proof.
  unfold filter_func. rewrite lower_idem.
  destruct (String.eqb_spec s EmptyString) as [->|Hs]; [reflexivity|].
  destruct (String.eqb_spec (lower s) EmptyString) as [E|_]; [|reflexivity].
  exfalso; apply Hs, lower_empty, E.
Qed.





End FilterTheory.

Module TimerTheory.
Import Timer.

Definition is_signal (e : event) : bool := match e with SignalSent => true | _ => false end.
Definition is_oneshot (e : event) : bool := match e with OneShot => true | _ => false end.

(** The signals sent in a trace, and the one-shot sources that fired and
    rebuilt the tree in the outcome of a run. *)
Definition signals (tr : list event) : nat := length (filter is_signal tr).
Definition fired (outs : list (event * bool)) : nat :=
  length (filter (fun '(e, b) => (is_oneshot e && b)%bool) outs).

Lemma step_oneshots (s : state) (e : event) :
  ((if (is_oneshot e && snd (step s e))%bool then 1 else 0)
    + oneshots (fst (step s e)))%nat
  = (oneshots s + if is_signal e then 1 else 0%nat)%nat.
Proof.
  destruct s as [a t n r].
  unfold step, auto_refresh_cb; destruct e, t, a, n; simpl; lia.
Qed.

Lemma run_unfold (s : state) (e : event) (tr : list event) :
  run s (e :: tr) = (fst (run (fst (step s e)) tr),
                     (e, snd (step s e)) :: snd (run (fst (step s e)) tr)).
Proof.
  simpl. destruct (step s e) as [s1 b]. simpl. destruct (run s1 tr) as [s2 outs]. reflexivity.
Qed.

(** Every [_signal_selected] schedules exactly one delayed [_refresh]:
    along any run, the one-shot refreshes that fired plus those still
    pending equal the ones pending at the start plus the signals sent. *)
Theorem oneshot_accounting (s : state) (tr : list event) :
  (fired (snd (run s tr)) + oneshots (fst (run s tr)) = oneshots s + signals tr)%nat.
Proof.
  revert s; induction tr as [|e tr IH]; intros s; [unfold fired, signals; simpl; lia|].
  rewrite run_unfold. simpl snd; simpl fst.
  pose proof (step_oneshots s e) as H. specialize (IH (fst (step s e))).
  unfold fired, signals in *. simpl.
  destruct (is_oneshot e && snd (step s e))%bool, (is_signal e); simpl in *; lia.
Qed.

Lemma step_alive (s : state) (e : event) :
  timer_alive s = true -> timer_alive (fst (step s e)) = true.
Proof.
  intros H. destruct e; simpl; try exact H.
  - rewrite H. unfold auto_refresh_cb. destruct (auto_refresh s); reflexivity.
  - destruct (oneshots s); exact H.
Qed.

Lemma step_auto (s : state) (e : event) :
  auto_refresh s = true -> e <> Toggle false -> auto_refresh (fst (step s e)) = true.
Proof.
  intros H He. destruct e; simpl; try exact H.
  - destruct active; [reflexivity | contradiction].
  - destruct (timer_alive s); [unfold auto_refresh_cb; rewrite H|]; exact H.
  - destruct (oneshots s); exact H.
Qed.

(** While auto-refresh stays on, every tick of the 3-second source
    rebuilds the tree. *)
Theorem ticks_rebuild (s : state) (tr : list event) :
  timer_alive s = true -> auto_refresh s = true -> ~ In (Toggle false) tr ->
  forall b, In (Tick, b) (snd (run s tr)) -> b = true.
Proof.
  revert s; induction tr as [|e tr IH]; intros s Ha Hr Hn b Hin; [destruct Hin|].
  rewrite run_unfold in Hin. destruct Hin as [E|Hin].
  - injection E as -> <-.
    assert (Hne : Nat.eqb (S (rebuilds s)) (rebuilds s) = false) by (apply Nat.eqb_neq; lia).
    unfold step. rewrite Ha. unfold auto_refresh_cb. rewrite Hr.
    cbn [do_refresh rebuilds snd]. rewrite Hne. reflexivity.
  - apply (IH (fst (step s e))); [apply step_alive, Ha | apply step_auto; [exact Hr|] | |exact Hin].
    + intros ->. apply Hn. left; reflexivity.
    + intros H. apply Hn. right; exact H.
Qed.

Lemma ticks_rebuild_witness :
  snd (run init [Tick; Toggle true; SignalSent; Tick; OneShot])
  = [(Tick, true); (Toggle true, false); (SignalSent, false); (Tick, true); (OneShot, true)] /\
  (forall b, In (Tick, b) (snd (run init [Tick; Toggle true; SignalSent; Tick; OneShot])) -> b = true).
Proof.
  split; [reflexivity|].
  apply ticks_rebuild; [reflexivity | reflexivity |].
  simpl. intros [H|[H|[H|[H|[H|[]]]]]]; discriminate.
Defined.

End TimerTheory.

Module WelcomeTheory.
Import Py Welcome.

Lemma step_shown (st : state) (e : event) :
  welcome_shown (load (file st)) = true -> dialog_open st = false ->
  file (step st e) = file st /\ dialog_open (step st e) = false.
Proof.
  intros Hs Hd. destruct e; simpl.
  - unfold activate. rewrite Hs. simpl. auto.
  - rewrite Hd. auto.
  - auto.
Qed.

(** Once [welcome.json] records [welcome_shown], the welcome dialog is left
    alone: whatever the user does, the file stays as it is, no dialog
    opens, and every activation completes without raising. *)
Theorem welcome_already_shown (st : state) (tr : list event) :
  welcome_shown (load (file st)) = true -> dialog_open st = false ->
  file (run st tr) = file st /\ dialog_open (run st tr) = false /\
  snd (activate (run st tr)) = None.
Proof.
  intros Hs Hd.
  assert (H : forall st', file st' = file st -> dialog_open st' = false ->
            file (fold_left step tr st') = file st /\
            dialog_open (fold_left step tr st') = false).
  { induction tr as [|e tr IH]; intros st' Hf Hd'; simpl; [auto|].
    rewrite <- Hf in Hs.
    destruct (step_shown st' e Hs Hd') as [Hf' Hd''].
    apply IH; [congruence | exact Hd'']. }
  destruct (H st eq_refl Hd) as [Hf Hd'].
  unfold run. split; [exact Hf|]. split; [exact Hd'|].
  unfold activate. rewrite Hf, Hs. reflexivity.
Qed.

Lemma welcome_already_shown_witness :
  file (run (mkState (Some [("welcome_shown"%string, true)]) [] false)
            [Activate; Restart; Dismiss; Activate])
  = Some [("welcome_shown"%string, true)] /\
  snd (activate (run (mkState (Some [("welcome_shown"%string, true)]) [] false)
                     [Activate; Restart; Dismiss; Activate])) = None.
Proof.
  destruct (welcome_already_shown (mkState (Some [("welcome_shown"%string, true)]) [] false)
              [Activate; Restart; Dismiss; Activate] eq_refl eq_refl) as [H1 [_ H3]].
  split; [exact H1 | exact H3].
Defined.

End WelcomeTheory.

Module ThemeTheory.
Import Theme.

Section Forced.
Variable get_dark : color_scheme -> bool.
Hypothesis forced_dark : get_dark FORCE_DARK = true.
Hypothesis forced_light : get_dark FORCE_LIGHT = false.

(** Each press of the theme button flips [get_dark], whatever scheme was
    in force before; two presses give back the original brightness. *)
Theorem toggle_theme_flips (sch : color_scheme) :
  get_dark (toggle_theme get_dark sch) = negb (get_dark sch) /\
  get_dark (toggle_theme get_dark (toggle_theme get_dark sch)) = get_dark sch.
Proof.
  unfold toggle_theme.
  destruct (get_dark sch) eqn:E.
  - rewrite forced_light, forced_dark. auto.
  - rewrite forced_dark, forced_light. auto.
Qed.

End Forced.

Lemma toggle_theme_flips_witness :
  toggle_theme (adw_get_dark PreferDarkSys) DEFAULT = FORCE_LIGHT /\
  adw_get_dark PreferDarkSys (toggle_theme (adw_get_dark PreferDarkSys) DEFAULT)
    = negb (adw_get_dark PreferDarkSys DEFAULT).
Proof.
  split; [reflexivity|].
  exact (proj1 (toggle_theme_flips (adw_get_dark PreferDarkSys) eq_refl eq_refl DEFAULT)).
Defined.

End ThemeTheory.

Module SignalTheory.
Import Py Signal.

Lemma signal_loop_err {os : Type} (send : os -> Z -> Z -> result os)
    (o : os) (pids : list Z) (sig : Z) (e : exn) :
  signal_loop os send o pids sig = Err e ->
  caught_sig e = false /\ exists p o', In p pids /\ send o' p sig = Err e.
Proof.
  revert o; induction pids as [|p rest IH]; intros o H; simpl in H; [discriminate|].
  destruct (send o p sig) as [o'|e'] eqn:Es.
  - destruct (IH o' H) as [Hc [q [o'' [Hq Hs]]]]. split; [exact Hc|].
    exists q, o''. split; [right; exact Hq | exact Hs].
  - destruct (caught_sig e') eqn:Ec.
    + destruct (IH o H) as [Hc [q [o'' [Hq Hs]]]]. split; [exact Hc|].
      exists q, o''. split; [right; exact Hq | exact Hs].
    + injection H as <-. split; [exact Ec|]. exists p, o. split; [left; reflexivity | exact Es].
Qed.

(** [_signal_selected] fails only when sending to one of the selected pids
    raised an exception outside its [except] list; the delayed refresh is
    then not scheduled. *)
Theorem signal_selected_err {os : Type} (send : os -> Z -> Z -> result os)
    (o : os) (selected : list Z) (sig : Z) (e : exn) :
  signal_selected os send o selected sig = Err e ->
  caught_sig e = false /\ exists p o', In p selected /\ send o' p sig = Err e.
Proof.
  unfold signal_selected. destruct (signal_loop os send o selected sig) eqn:E;
    [discriminate|]. intros H; injection H as <-. exact (signal_loop_err send o selected sig _ E).
Qed.

(** A [send_signal] that raises an unexpected error on pid 0. *)
Definition flaky_send (o : list Z) (pid sig : Z) : result (list Z) :=
  if Z.eqb pid 0 then Err OtherError else Ok (pid :: o).

Lemma signal_selected_err_witness :
  signal_selected (list Z) flaky_send [] [3; 0; 5] SIGTERM = Err OtherError /\
  caught_sig OtherError = false.
Proof.
  split; [reflexivity|].
  exact (proj1 (signal_selected_err flaky_send [] [3; 0; 5] SIGTERM OtherError eq_refl)).
Defined.

End SignalTheory.

Module EnumTheory.
Import Py Refresh.

Lemma dget_dset_Z (k k' : Z) (v : info) (d : procs_t) :
  dget Z.eqb k (dset Z.eqb k' v d) = if Z.eqb k k' then Some v else dget Z.eqb k d.
Proof.
  induction d as [|[k0 v0] d IH]; simpl.
  - destruct (Z.eqb k k'); reflexivity.
  - destruct (Z.eqb_spec k' k0) as [->|Hne]; simpl.
    + destruct (Z.eqb k k0); reflexivity.
    + rewrite IH. destruct (Z.eqb_spec k k0), (Z.eqb_spec k k'); subst;
        try congruence; reflexivity.
Qed.

Lemma find_app {A : Type} (f : A -> bool) (a b : list A) :
  find f (a ++ b) = match find f a with Some x => Some x | None => find f b end.
Proof.
  induction a as [|x a IH]; simpl; [reflexivity|]. destruct (f x); [reflexivity | exact IH].
Qed.

Lemma enum_loop_last (items : poll) (procs procs' : procs_t) (p : Z) :
  enum_loop items procs = Ok procs' ->
  dget Z.eqb p procs'
  = match find (fun i => Z.eqb (i_pid i) p) (rev (RefreshFacts.oks items)) with
    | Some i => Some i
    | None => dget Z.eqb p procs
    end.
Proof.
  revert procs; induction items as [|[i|e] rest IH]; intros procs H; simpl in H.
  - injection H as <-. reflexivity.
  - rewrite (IH _ H).
    change (RefreshFacts.oks (Ok i :: rest)) with (i :: RefreshFacts.oks rest).
    simpl rev. rewrite find_app. simpl.
    destruct (find (fun j => Z.eqb (i_pid j) p) (rev (RefreshFacts.oks rest))); [reflexivity|].
    rewrite dget_dset_Z, Z.eqb_sym. destruct (Z.eqb (i_pid i) p); reflexivity.
  - destruct (caught_enum e); [|discriminate].
    rewrite (IH _ H). reflexivity.
Qed.

(** When [psutil.process_iter] yields a pid more than once, the assignment
    [procs[info['pid']] = info] keeps the last record read for it: the row
    shown for [p] comes from the first record with pid [p] found reading
    the successfully polled records backwards. *)
Theorem enumerate_last_wins (items : poll) (procs : procs_t) (p : Z) :
  enumerate items = Ok procs ->
  dget Z.eqb p procs = find (fun i => Z.eqb (i_pid i) p) (rev (RefreshFacts.oks items)).
Proof.
  intros H. rewrite (enum_loop_last items [] procs p H).
  destruct (find _ _); reflexivity.
Qed.

Lemma enumerate_last_wins_witness :
  dget Z.eqb 7 (match enumerate [Ok (RefreshFacts.proc 7 (Some 1) "old");
                                 Err NoSuchProcess;
                                 Ok (RefreshFacts.proc 7 (Some 1) "new")] with
                | Ok procs => procs | Err _ => [] end)
  = Some (RefreshFacts.proc 7 (Some 1) "new").
Proof.
  exact (enumerate_last_wins [Ok (RefreshFacts.proc 7 (Some 1) "old");
                              Err NoSuchProcess;
                              Ok (RefreshFacts.proc 7 (Some 1) "new")] _ 7 eq_refl).
Defined.

End EnumTheory.
